(** * Offline sync engine, call lifecycle and response producer

    A shallow embedding of the core services of the emergency alert client:
    [src/src/services/OfflineSyncService.ts] (the sync queue engine, the
    call service and the database schema it ships with),
    [src/src/services/ResponseService.ts] and
    [src/src/services/LocationService.ts].

    The SQLite tables are lists of rows in table order.  Everything the
    services receive from the outside world (network responses, connectivity
    reports, location fixes, generated ids, the clock) is an explicit input,
    so that every behaviour of the code is one evaluation of a definition
    below.  JSON text (what [JSON.stringify] writes into the [payload]
    column and [JSON.parse] reads back) is modelled as [list ascii]. *)

From Stdlib Require Import String Ascii List Bool Arith Lia ZArith.
From Stdlib Require Import Sorting.Permutation Sorting.Sorted RelationClasses.
Import ListNotations.

#[local] Set Warnings "-register-all".

Local Open Scope char_scope.
Local Open Scope list_scope.

(* ================================================================== *)
(** ** JSON values, [JSON.stringify] and [JSON.parse] *)

(** A JSON-representable JavaScript value.  A finite number is kept as the
    text [Number::toString] gives it, which is the text [JSON.stringify]
    writes and from which [JSON.parse] recovers the same number.  An object
    is its list of own properties in property order. *)
Inductive json : Type :=
| JNull
| JBool (b : bool)
| JNum (n : list ascii)
| JStr (s : string)
| JArr (xs : list json)
| JObj (kvs : list (string * json)).

Definition lit (s : string) : list ascii := list_ascii_of_string s.

(** The double quote and the backslash. *)
Definition dq : ascii := ascii_of_nat 34.
Definition bs : ascii := ascii_of_nat 92.

Definition hex_digit (n : nat) : ascii :=
  if (n <? 10)%nat then ascii_of_nat (48 + n) else ascii_of_nat (87 + n).

(** QuoteJSONString, one code unit at a time. *)
Definition escape_char (c : ascii) : list ascii :=
  let n := nat_of_ascii c in
  if (c =? dq)%char then [bs; dq]
  else if (c =? bs)%char then [bs; bs]
  else if (n =? 8)%nat then [bs; "b"]
  else if (n =? 9)%nat then [bs; "t"]
  else if (n =? 10)%nat then [bs; "n"]
  else if (n =? 12)%nat then [bs; "f"]
  else if (n =? 13)%nat then [bs; "r"]
  else if (n <? 32)%nat then [bs; "u"; "0"; "0"; hex_digit (n / 16); hex_digit (n mod 16)]
  else [c].

Definition quote (s : list ascii) : list ascii :=
  dq :: concat (map escape_char s) ++ [dq].
Arguments quote : simpl never.

(** [JSON.stringify] with no indentation. *)
Fixpoint stringify (v : json) : list ascii :=
  match v with
  | JNull => lit "null"
  | JBool true => lit "true"
  | JBool false => lit "false"
  | JNum n => n
  | JStr s => quote (list_ascii_of_string s)
  | JArr [] => lit "[]"
  | JArr (x :: r) =>
      "[" :: stringify x ++ concat (map (fun y => "," :: stringify y) r) ++ ["]"]
  | JObj [] => lit "{}"
  | JObj ((k, x) :: r) =>
      "{" :: (quote (list_ascii_of_string k) ++ ":" :: stringify x)
          ++ concat (map (fun '(k', y) =>
                            "," :: quote (list_ascii_of_string k') ++ ":" :: stringify y) r)
          ++ ["}"]
  end.

Definition is_ws (c : ascii) : bool :=
  let n := nat_of_ascii c in ((n =? 32) || (n =? 9) || (n =? 10) || (n =? 13))%nat.

Fixpoint skip_ws (s : list ascii) : list ascii :=
  match s with
  | c :: r => if is_ws c then skip_ws r else s
  | [] => []
  end.

Fixpoint strip_prefix (p s : list ascii) : option (list ascii) :=
  match p with
  | [] => Some s
  | x :: p' =>
      match s with
      | y :: s' => if (x =? y)%char then strip_prefix p' s' else None
      | [] => None
      end
  end.

Definition hex_value (c : ascii) : option nat :=
  let n := nat_of_ascii c in
  if ((48 <=? n) && (n <=? 57))%nat then Some (n - 48)
  else if ((97 <=? n) && (n <=? 102))%nat then Some (n - 87)
  else if ((65 <=? n) && (n <=? 70))%nat then Some (n - 55)
  else None.

(** The code unit of a [\uXXXX] escape, when it fits the 8-bit model. *)
Definition hex4 (a b c d : ascii) : option ascii :=
  match hex_value a, hex_value b, hex_value c, hex_value d with
  | Some x, Some y, Some z, Some w =>
      let n := ((x * 16 + y) * 16 + z) * 16 + w in
      if (n <? 256)%nat then Some (ascii_of_nat n) else None
  | _, _, _, _ => None
  end.

Definition unescape_simple (e : ascii) : option ascii :=
  if (e =? dq)%char then Some dq
  else if (e =? bs)%char then Some bs
  else if (e =? "/")%char then Some "/"
  else if (e =? "b")%char then Some (ascii_of_nat 8)
  else if (e =? "t")%char then Some (ascii_of_nat 9)
  else if (e =? "n")%char then Some (ascii_of_nat 10)
  else if (e =? "f")%char then Some (ascii_of_nat 12)
  else if (e =? "r")%char then Some (ascii_of_nat 13)
  else None.

(** The body of a string literal, after its opening quote: its contents
    and the text after the closing quote. *)
Fixpoint parse_str_body (s : list ascii) : option (list ascii * list ascii) :=
  match s with
  | [] => None
  | c :: r =>
      if (c =? dq)%char then Some ([], r)
      else if (c =? bs)%char then
        match r with
        | [] => None
        | e :: r' =>
            match unescape_simple e with
            | Some c' =>
                match parse_str_body r' with
                | Some (cs, rest) => Some (c' :: cs, rest)
                | None => None
                end
            | None =>
                if (e =? "u")%char then
                  match r' with
                  | h1 :: h2 :: h3 :: h4 :: r'' =>
                      match hex4 h1 h2 h3 h4 with
                      | Some c' =>
                          match parse_str_body r'' with
                          | Some (cs, rest) => Some (c' :: cs, rest)
                          | None => None
                          end
                      | None => None
                      end
                  | _ => None
                  end
                else None
            end
        end
      else if (nat_of_ascii c <? 32)%nat then None
      else
        match parse_str_body r with
        | Some (cs, rest) => Some (c :: cs, rest)
        | None => None
        end
  end.

Definition is_digit (c : ascii) : bool :=
  let n := nat_of_ascii c in ((48 <=? n) && (n <=? 57))%nat.

Definition is_num_char (c : ascii) : bool :=
  is_digit c || (c =? "-")%char || (c =? "+")%char || (c =? ".")%char
  || (c =? "e")%char || (c =? "E")%char.

(** The states of the JSON number grammar
    [-? (0 | [1-9][0-9]* ) (. [0-9]+)? ([eE] [+-]? [0-9]+)?]. *)
Inductive num_state :=
| NStart | NMinus | NZero | NInt | NDot | NFrac | NExp | NExpSign | NExpDigits | NReject.

Definition num_step (st : num_state) (c : ascii) : num_state :=
  match st with
  | NStart =>
      if (c =? "-")%char then NMinus
      else if (c =? "0")%char then NZero
      else if is_digit c then NInt else NReject
  | NMinus =>
      if (c =? "0")%char then NZero else if is_digit c then NInt else NReject
  | NZero =>
      if (c =? ".")%char then NDot
      else if (c =? "e")%char || (c =? "E")%char then NExp else NReject
  | NInt =>
      if is_digit c then NInt
      else if (c =? ".")%char then NDot
      else if (c =? "e")%char || (c =? "E")%char then NExp else NReject
  | NDot => if is_digit c then NFrac else NReject
  | NFrac =>
      if is_digit c then NFrac
      else if (c =? "e")%char || (c =? "E")%char then NExp else NReject
  | NExp =>
      if (c =? "+")%char || (c =? "-")%char then NExpSign
      else if is_digit c then NExpDigits else NReject
  | NExpSign => if is_digit c then NExpDigits else NReject
  | NExpDigits => if is_digit c then NExpDigits else NReject
  | NReject => NReject
  end.

Definition num_accepting (st : num_state) : bool :=
  match st with NZero | NInt | NFrac | NExpDigits => true | _ => false end.

Definition valid_number (s : list ascii) : bool :=
  forallb is_num_char s && num_accepting (fold_left num_step s NStart).

(** The longest prefix of number characters, and the rest. *)
Fixpoint span_num (s : list ascii) : list ascii * list ascii :=
  match s with
  | c :: r =>
      if is_num_char c then let '(a, b) := span_num r in (c :: a, b) else ([], s)
  | [] => ([], [])
  end.

Definition parse_number (s : list ascii) : option (json * list ascii) :=
  let '(lex, r) := span_num s in
  if valid_number lex then Some (JNum lex, r) else None.

(** Creating a data property while parsing an object: a repeated key keeps
    its first position and takes the last value. *)
Fixpoint obj_set (k : string) (v : json) (kvs : list (string * json))
  : list (string * json) :=
  match kvs with
  | [] => [(k, v)]
  | (k', v') :: r =>
      if String.eqb k k' then (k', v) :: r else (k', v') :: obj_set k v r
  end.

Fixpoint parse_value (fuel : nat) (s : list ascii) {struct fuel}
  : option (json * list ascii) :=
  match fuel with
  | O => None
  | S f =>
      match skip_ws s with
      | [] => None
      | c :: r =>
          if (c =? "n")%char then
            option_map (fun r' => (JNull, r')) (strip_prefix (lit "ull") r)
          else if (c =? "t")%char then
            option_map (fun r' => (JBool true, r')) (strip_prefix (lit "rue") r)
          else if (c =? "f")%char then
            option_map (fun r' => (JBool false, r')) (strip_prefix (lit "alse") r)
          else if (c =? dq)%char then
            match parse_str_body r with
            | Some (cs, r') => Some (JStr (string_of_list_ascii cs), r')
            | None => None
            end
          else if (c =? "[")%char then
            match skip_ws r with
            | c' :: r' => if (c' =? "]")%char then Some (JArr [], r') else parse_elems f r []
            | [] => None
            end
          else if (c =? "{")%char then
            match skip_ws r with
            | c' :: r' => if (c' =? "}")%char then Some (JObj [], r') else parse_members f r []
            | [] => None
            end
          else parse_number (c :: r)
      end
  end
with parse_elems (fuel : nat) (s : list ascii) (acc : list json) {struct fuel}
  : option (json * list ascii) :=
  match fuel with
  | O => None
  | S f =>
      match parse_value f s with
      | None => None
      | Some (v, r) =>
          match skip_ws r with
          | c :: r' =>
              if (c =? ",")%char then parse_elems f r' (acc ++ [v])
              else if (c =? "]")%char then Some (JArr (acc ++ [v]), r')
              else None
          | [] => None
          end
      end
  end
with parse_members (fuel : nat) (s : list ascii) (acc : list (string * json)) {struct fuel}
  : option (json * list ascii) :=
  match fuel with
  | O => None
  | S f =>
      match skip_ws s with
      | c :: r =>
          if (c =? dq)%char then
            match parse_str_body r with
            | None => None
            | Some (k, r1) =>
                match skip_ws r1 with
                | c1 :: r2 =>
                    if (c1 =? ":")%char then
                      match parse_value f r2 with
                      | None => None
                      | Some (v, r3) =>
                          let acc' := obj_set (string_of_list_ascii k) v acc in
                          match skip_ws r3 with
                          | c3 :: r4 =>
                              if (c3 =? ",")%char then parse_members f r4 acc'
                              else if (c3 =? "}")%char then Some (JObj acc', r4)
                              else None
                          | [] => None
                          end
                      end
                    else None
                | [] => None
                end
            end
          else None
      | [] => None
      end
  end.

(** [JSON.parse]: one value, surrounded by optional white space.  [None]
    is the [SyntaxError] it throws. *)
Definition json_parse (s : list ascii) : option json :=
  match parse_value (S (length s)) s with
  | Some (v, r) => match skip_ws r with [] => Some v | _ => None end
  | None => None
  end.

(** The values [JSON.stringify] writes and [JSON.parse] reads back:
    numbers in number syntax, no repeated key in an object. *)
Fixpoint json_wf (v : json) : Prop :=
  match v with
  | JNum n => valid_number n = true
  | JArr xs => (fix go (l : list json) : Prop :=
                  match l with [] => True | x :: r => json_wf x /\ go r end) xs
  | JObj kvs => NoDup (map fst kvs) /\
                (fix go (l : list (string * json)) : Prop :=
                   match l with [] => True | (_, x) :: r => json_wf x /\ go r end) kvs
  | _ => True
  end.

(** The nesting of a value, which bounds the fuel [parse_value] needs. *)
Fixpoint jsize (v : json) : nat :=
  match v with
  | JArr xs => S (list_sum (map (fun y => S (jsize y)) xs))
  | JObj kvs => S (list_sum (map (fun '(_, y) => S (jsize y)) kvs))
  | _ => 1
  end.

(** Text that cannot continue a number. *)
Definition num_follow (rest : list ascii) : bool :=
  match rest with [] => true | c :: _ => negb (is_num_char c) end.

(** [stringify v] followed by text that cannot continue it parses back to
    [v] given enough fuel. *)
Definition parses_back (v : json) : Prop :=
  json_wf v -> forall f rest, jsize v <= f -> num_follow rest = true ->
  parse_value f (stringify v ++ rest) = Some (v, rest).

(* ================================================================== *)
(** ** Shared helpers *)

Local Close Scope char_scope.
Local Open Scope string_scope.
Local Open Scope list_scope.

(** A settled promise: its value, or the message of the [Error] it was
    rejected with. *)
Inductive result (A : Type) : Type :=
| Ok (a : A)
| Err (message : string).
Arguments Ok {A} a.
Arguments Err {A} message.

Fixpoint digits_rev (fuel n : nat) : list ascii :=
  match fuel with
  | O => []
  | S f =>
      let d := ascii_of_nat (48 + n mod 10) in
      if (n <? 10)%nat then [d] else d :: digits_rev f (n / 10)
  end.

(** [String(n)] for a natural number. *)
Definition string_of_nat (n : nat) : string :=
  string_of_list_ascii (rev (digits_rev (S n) n)).

(** [@react-native-community/netinfo]'s state; both fields are
    [boolean | null]. *)
Record NetInfoState := mkNetInfo {
  isConnected : option bool;
  isInternetReachable : option bool
}.

(** [netState.isConnected && netState.isInternetReachable] is truthy. *)
Definition netinfo_online (ns : NetInfoState) : bool :=
  match isConnected ns, isInternetReachable ns with
  | Some true, Some true => true
  | _, _ => false
  end.

(** [!netState.isConnected] is false. *)
Definition netinfo_connected (ns : NetInfoState) : bool :=
  match isConnected ns with Some true => true | _ => false end.

(* ================================================================== *)
(** ** The [sync_queue] table *)

Inductive SyncType := user_response | location_update | call_log.

Definition sync_type_name (t : SyncType) : string :=
  match t with
  | user_response => "user_response"
  | location_update => "location_update"
  | call_log => "call_log"
  end.

Inductive SyncStatus := pending | syncing | synced | failed.

Definition SyncStatus_eqb (a b : SyncStatus) : bool :=
  match a, b with
  | pending, pending | syncing, syncing | synced, synced | failed, failed => true
  | _, _ => false
  end.

(** A row of [sync_queue].  [created_at] is [datetime('now')] at insertion,
    a text of second resolution whose lexicographic order is its
    chronological order; it is kept as the number of seconds. *)
Module SyncQueue.
Record row := mkRow {
  id : string;
  type : SyncType;
  payload : string;
  created_at : nat;
  status : SyncStatus;
  retry_count : nat;
  last_error : option string
}.
End SyncQueue.
Import SyncQueue.

Definition set_status (s : SyncStatus) (r : row) : row :=
  mkRow (id r) (type r) (payload r) (created_at r) s (retry_count r) (last_error r).

(** [SET status = 'synced', last_error = NULL] *)
Definition set_synced (r : row) : row :=
  mkRow (id r) (type r) (payload r) (created_at r) synced (retry_count r) None.

(** [SET status = 'failed', retry_count = retry_count + 1, last_error = ?] *)
Definition set_failed (msg : string) (r : row) : row :=
  mkRow (id r) (type r) (payload r) (created_at r) failed (S (retry_count r)) (Some msg).

(** [UPDATE sync_queue SET ... WHERE id = ?] *)
Definition update_where (i : string) (f : row -> row) (q : list row) : list row :=
  map (fun r => if String.eqb (id r) i then f r else r) q.

(** [INSERT INTO sync_queue ...]; [id] is the primary key. *)
Definition insert_row (q : list row) (r : row) : result (list row) :=
  if existsb (fun r' => String.eqb (id r') (id r)) q
  then Err "UNIQUE constraint failed: sync_queue.id"
  else Ok (q ++ [r]).

(* ================================================================== *)
(** ** [OfflineSyncService] *)

Definition MAX_RETRIES : nat := 5.

(** The service's state: the [isSyncing] latch and the table. *)
Record SyncState := mkSyncState {
  isSyncing : bool;
  queue : list row
}.

(** The row [enqueue] inserts: [status] is given, [created_at],
    [retry_count] and [last_error] take their column defaults. *)
Definition new_item (i : string) (t : SyncType) (p : json) (now : nat) : row :=
  mkRow i t (string_of_list_ascii (stringify p)) now pending 0 None.

(** What [enqueue] settles to, and whether it started a drain (the call
    [this.processSyncQueue()] that it does not await). *)
Record EnqueueOutcome := mkEnqueueOutcome {
  enq_result : result string;
  enq_queue : list row;
  drain_triggered : bool
}.

(** [enqueue(type, payload)]: [store_up] says whether the database can be
    opened and written, [i] is [generateId()], [now] the insertion time and
    [ns] what [NetInfo.fetch()] reports. *)
Definition enqueue (store_up : bool) (q : list row) (t : SyncType) (p : json)
    (i : string) (now : nat) (ns : NetInfoState) : EnqueueOutcome :=
  if negb store_up then mkEnqueueOutcome (Err "database unavailable") q false
  else
    match insert_row q (new_item i t p now) with
    | Err e => mkEnqueueOutcome (Err e) q false
    | Ok q' => mkEnqueueOutcome (Ok i) q' (netinfo_online ns)
    end.

(** [fetch]: a response, or a rejection. *)
Inductive FetchResult :=
| Response (ok : bool) (status_code : nat) (statusText : string)
| NetworkError (message : string).

(** The outside world during one drain pass: the response to the [n]-th
    delivery attempt of the pass (given its URL and body), what
    [NetInfo.fetch()] reports after the [n]-th attempt failed, and the
    [message] of the [SyntaxError] the JavaScript engine's [JSON.parse]
    throws on a text it rejects (its wording is the engine's). *)
Record DrainEnv := mkDrainEnv {
  fetch_result : nat -> string -> list ascii -> FetchResult;
  netinfo_after : nat -> NetInfoState;
  syntax_error_message : list ascii -> string
}.

(** What a pass does, in order. *)
Inductive SyncEvent :=
| MarkSyncing (item : row)
| Post (item_id : string) (url : string) (body : list ascii)
| MarkSynced (item_id : string)
| MarkFailed (item_id : string) (message : string)
| NetCheck (item_id : string) (ns : NetInfoState).

Definition endpoints (t : string) : option string :=
  if String.eqb t "user_response" then Some "/api/responses"
  else if String.eqb t "location_update" then Some "/api/locations"
  else if String.eqb t "call_log" then Some "/api/calls"
  else None.

Definition baseUrl : string := "https://api.yourcompany.com".

(** [sendToBackend(type, payload)] as the [n]-th attempt of a pass: the
    request it posts, and [None] when it resolves or [Some message] when it
    throws. *)
Definition sendToBackend (env : DrainEnv) (n : nat) (item_id t : string) (p : json)
  : list SyncEvent * option string :=
  match endpoints t with
  | None => ([], Some ("Unknown sync type: " ++ t)%string)
  | Some ep =>
      let url := (baseUrl ++ ep)%string in
      let body := stringify p in
      ([Post item_id url body],
       match fetch_result env n url body with
       | NetworkError m => Some m
       | Response ok code text =>
           if ok then None
           else Some ("Sync failed: " ++ string_of_nat code ++ " " ++ text)%string
       end)
  end.

(** The [try] block for one item after it is marked [syncing]:
    [JSON.parse(item.payload)] then [sendToBackend]. *)
Definition attempt (env : DrainEnv) (n : nat) (item : row) : list SyncEvent * option string :=
  match json_parse (list_ascii_of_string (payload item)) with
  | None => ([], Some (syntax_error_message env (list_ascii_of_string (payload item))))
  | Some v => sendToBackend env n (id item) (sync_type_name (type item)) v
  end.

(** One pass of the [for] loop over [items], the [n]-th attempt first;
    [cnt] is [syncedCount].  Returns the final count, the table and the
    events. *)
Fixpoint drain_loop (env : DrainEnv) (n : nat) (items q : list row) (cnt : nat)
  : nat * list row * list SyncEvent :=
  match items with
  | [] => (cnt, q, [])
  | item :: rest =>
      let q1 := update_where (id item) (set_status syncing) q in
      let '(sent, outcome) := attempt env n item in
      match outcome with
      | None =>
          let q2 := update_where (id item) set_synced q1 in
          let '(c, q', tr) := drain_loop env (S n) rest q2 (S cnt) in
          (c, q', MarkSyncing item :: sent ++ MarkSynced (id item) :: tr)
      | Some msg =>
          let q2 := update_where (id item) (set_failed msg) q1 in
          let ns := netinfo_after env n in
          if netinfo_connected ns then
            let '(c, q', tr) := drain_loop env (S n) rest q2 cnt in
            (c, q', MarkSyncing item :: sent ++ MarkFailed (id item) msg :: NetCheck (id item) ns :: tr)
          else
            (cnt, q2, MarkSyncing item :: sent ++ [MarkFailed (id item) msg; NetCheck (id item) ns])
      end
  end.

(** How SQLite orders rows by [created_at]; rows with equal [created_at]
    come in an order the query leaves open. *)
Record SqlOrder := mkSqlOrder {
  order_created_asc : list row -> list row;
  order_created_desc : list row -> list row
}.

Definition created_le (a b : row) : Prop := created_at a <= created_at b.
Definition created_ge (a b : row) : Prop := created_at b <= created_at a.

Definition sql_order_ok (so : SqlOrder) : Prop :=
  forall l,
    Permutation (order_created_asc so l) l /\ Sorted created_le (order_created_asc so l) /\
    Permutation (order_created_desc so l) l /\ Sorted created_ge (order_created_desc so l).

(** [WHERE status IN ('pending', 'failed') AND retry_count < MAX_RETRIES] *)
Definition eligible (r : row) : bool :=
  (SyncStatus_eqb (status r) pending || SyncStatus_eqb (status r) failed)
  && (retry_count r <? MAX_RETRIES)%nat.

(** The rows the pass selects, [ORDER BY created_at ASC]. *)
Definition candidates (so : SqlOrder) (q : list row) : list row :=
  order_created_asc so (filter eligible q).

Definition is_synced (r : row) : bool := SyncStatus_eqb (status r) synced.

(** [DELETE FROM sync_queue WHERE status = 'synced' AND id NOT IN (SELECT id
    FROM sync_queue WHERE status = 'synced' ORDER BY created_at DESC LIMIT 100)] *)
Definition prune (so : SqlOrder) (q : list row) : list row :=
  let keep := map id (firstn 100 (order_created_desc so (filter is_synced q))) in
  filter (fun r => negb (is_synced r && negb (existsb (String.eqb (id r)) keep))) q.

(** [processSyncQueue()], with the store available throughout: the number
    it returns, the state after its [finally] block, and the events. *)
Definition processSyncQueue (so : SqlOrder) (env : DrainEnv) (st : SyncState)
  : nat * SyncState * list SyncEvent :=
  if isSyncing st then (0, st, [])
  else
    let '(cnt, q', tr) := drain_loop env 0 (candidates so (queue st)) (queue st) 0 in
    (cnt, mkSyncState false (prune so q'), tr).

(** [getPendingCount()] *)
Definition getPendingCount (q : list row) : nat :=
  length (filter (fun r => SyncStatus_eqb (status r) pending || SyncStatus_eqb (status r) failed) q).

(** [BackgroundFetch.BackgroundFetchResult] *)
Inductive BackgroundFetchResult := NewData | NoData | Failed.

(** The task [initialize] registers with [TaskManager.defineTask]: one
    [processSyncQueue()] pass, reported by the number it returns ([synced]
    in the source, [count] here: [synced] is a status).  Its
    [catch] answers [Failed] for a pass that throws, which a pass with the
    store available does not. *)
Definition sync_task (so : SqlOrder) (env : DrainEnv) (st : SyncState)
  : BackgroundFetchResult * SyncState :=
  let '(count, st', _) := processSyncQueue so env st in
  (if (0 <? count)%nat then NewData else NoData, st').

(** An order SQLite may use: insertion sort on [created_at]. *)
Fixpoint insert_by (le : nat -> nat -> bool) (r : row) (l : list row) : list row :=
  match l with
  | [] => [r]
  | x :: l' => if le (created_at r) (created_at x) then r :: l else x :: insert_by le r l'
  end.

Definition isort_sql : SqlOrder :=
  mkSqlOrder (fold_right (insert_by Nat.leb) [])
             (fold_right (insert_by (fun a b => Nat.leb b a)) []).

(** The rows a pass marks [syncing], in order. *)
Definition attempts (tr : list SyncEvent) : list row :=
  flat_map (fun e => match e with MarkSyncing r => [r] | _ => [] end) tr.

(** How a pass ended for the row with id [i]: [Some None] when it was
    marked synced, [Some (Some msg)] when it was marked failed. *)
Fixpoint outcome_of (tr : list SyncEvent) (i : string) : option (option string) :=
  match tr with
  | [] => None
  | MarkSynced j :: tr' => if String.eqb j i then Some None else outcome_of tr' i
  | MarkFailed j m :: tr' => if String.eqb j i then Some (Some m) else outcome_of tr' i
  | _ :: tr' => outcome_of tr' i
  end.

Definition apply_outcome (tr : list SyncEvent) (r : row) : row :=
  match outcome_of tr (id r) with
  | Some None => set_synced (set_status syncing r)
  | Some (Some m) => set_failed m (set_status syncing r)
  | None => r
  end.

(** The states the service goes through when started from the empty table:
    every [enqueue] (whatever its outcome) and every drain pass. *)
Inductive reachable (so : SqlOrder) : SyncState -> Prop :=
| reach_init : reachable so (mkSyncState false [])
| reach_enqueue st store_up t p i now ns :
    reachable so st ->
    reachable so (mkSyncState (isSyncing st) (enq_queue (enqueue store_up (queue st) t p i now ns)))
| reach_pass st env :
    reachable so st -> reachable so (snd (fst (processSyncQueue so env st))).

(* ================================================================== *)
(** ** The database *)

(** A JavaScript number, by the text of its [Number::toString]. *)
Definition JsNumber := list ascii.

Definition json_of_Z (z : Z) : json :=
  JNum (lit (if (z <? 0)%Z then "-" ++ string_of_nat (Z.to_nat (- z))
             else string_of_nat (Z.to_nat z))).

Module CallLogs.
Inductive CallStatus := connecting | connected | disconnected | failed.
Record row := mkRow {
  id : string;
  alert_id : option string;
  user_id : string;
  hotline_number : string;
  started_at : string;
  ended_at : option string;
  duration_seconds : option Z;
  recording_url : option string;
  status : CallStatus;
  synced_at : option string
}.
End CallLogs.

Inductive UserResponseType := safe | need_assistance | evacuating | sheltering.

Definition response_type_name (t : UserResponseType) : string :=
  match t with
  | safe => "safe"
  | need_assistance => "need_assistance"
  | evacuating => "evacuating"
  | sheltering => "sheltering"
  end.

(** [UserResponse]; a row of [user_responses] has the same columns. *)
Module UserResponses.
Record UserResponse := mkUserResponse {
  id : string;
  alertId : string;
  userId : string;
  response : UserResponseType;
  latitude : option JsNumber;
  longitude : option JsNumber;
  locationAccuracy : option JsNumber;
  respondedAt : string;
  syncedAt : option string
}.
End UserResponses.

(** The tables the services write, and the [id] column of [alerts], which
    the [FOREIGN KEY (alert_id) REFERENCES alerts(id)] of [call_logs] and
    [user_responses] read ([PRAGMA foreign_keys = ON]). *)
Record Database := mkDatabase {
  call_logs : list CallLogs.row;
  user_responses : list UserResponses.UserResponse;
  sync_queue : list SyncQueue.row;
  alerts : list string
}.

Definition with_sync_queue (db : Database) (q : list SyncQueue.row) : Database :=
  mkDatabase (call_logs db) (user_responses db) q (alerts db).

Definition with_call_logs (db : Database) (l : list CallLogs.row) : Database :=
  mkDatabase l (user_responses db) (sync_queue db) (alerts db).

(** The foreign key check for an inserted [alert_id]: a row of [alerts]
    has that id. *)
Definition alert_exists (db : Database) (a : string) : bool :=
  existsb (String.eqb a) (alerts db).

(* ================================================================== *)
(** ** [CallService] *)

(** The service's fields ([eventCallback] only notifies the screen).
    Times are milliseconds since the epoch. *)
Record CallServiceState := mkCallServiceState {
  activeCallId : option string;
  activeCallSid : option string;
  callStartTime : option Z
}.

Record CallWorld := mkCallWorld {
  calls : CallServiceState;
  db : Database
}.

(** [UPDATE call_logs SET status = ? WHERE id = ?] *)
Definition updateCallStatus (c : string) (st : CallLogs.CallStatus) (w : CallWorld) : CallWorld :=
  mkCallWorld (calls w)
    (with_call_logs (db w)
       (map (fun r => if String.eqb (CallLogs.id r) c
                      then CallLogs.mkRow (CallLogs.id r) (CallLogs.alert_id r) (CallLogs.user_id r)
                             (CallLogs.hotline_number r) (CallLogs.started_at r) (CallLogs.ended_at r)
                             (CallLogs.duration_seconds r) (CallLogs.recording_url r) st
                             (CallLogs.synced_at r)
                      else r) (call_logs (db w)))).

(** [Math.round((endTime - callStartTime) / 1000)] *)
Definition round_seconds (ms : Z) : Z := ((ms + 500) / 1000)%Z.

(** [handleCallEnd(callId)] at time [now]; [iso] is [toISOString], [i] the
    id [enqueue] generates, [ns] what [NetInfo.fetch()] reports.  The call
    sites do not await it: when [enqueue] rejects, the update of the row
    stays and the fields are not cleared. *)
Definition handleCallEnd (iso : Z -> string) (c : string) (now : Z) (i : string)
    (ns : NetInfoState) (w : CallWorld) : CallWorld :=
  let durationSeconds :=
    match callStartTime (calls w) with
    | Some t => Some (round_seconds (now - t))
    | None => None
    end in
  let logs' :=
    map (fun r => if String.eqb (CallLogs.id r) c
                  then CallLogs.mkRow (CallLogs.id r) (CallLogs.alert_id r) (CallLogs.user_id r)
                         (CallLogs.hotline_number r) (CallLogs.started_at r) (Some (iso now))
                         durationSeconds (CallLogs.recording_url r) CallLogs.disconnected
                         (CallLogs.synced_at r)
                  else r) (call_logs (db w)) in
  let payload :=
    JObj [("callId", JStr c); ("endedAt", JStr (iso now));
          ("durationSeconds", match durationSeconds with Some d => json_of_Z d | None => JNull end)] in
  let out := enqueue true (sync_queue (db w)) call_log payload i (Z.to_nat (now / 1000)) ns in
  let db' := mkDatabase logs' (user_responses (db w)) (enq_queue out) (alerts (db w)) in
  match enq_result out with
  | Ok _ => mkCallWorld (mkCallServiceState None None None) db'
  | Err _ => mkCallWorld (calls w) db'
  end.

(** What [TwilioVoice.voice().connect(...)] does in [makeHotlineCall]. *)
Inductive ConnectAttempt :=
| NoVoiceSdk (dial_error : option string)
    (** the SDK is missing: [Linking.openURL('tel:...')] resolves ([None])
        or rejects with this message *)
| ConnectThrows (message : string) (** the token fetch or [connect] throws *)
| ConnectReturns (sid : string).   (** a call object with this SID *)

(** [makeHotlineCall(hotlineNumber, alertId, ...)] up to its [return]:
    [c] is [generateId()], [now] is [new Date()].  The fields are set
    before the row is inserted, so they stay set when the insert throws:
    on a duplicate id, or when [alertId] is given and no alert has it
    (the foreign key; a null [alert_id] is not checked). *)
Definition makeHotlineCall (iso : Z -> string) (hotlineNumber : string)
    (alertId : option string) (c : string) (now : Z) (att : ConnectAttempt)
    (w : CallWorld) : result string * CallWorld :=
  let cs := mkCallServiceState (Some c) (activeCallSid (calls w)) (Some now) in
  let callLog := CallLogs.mkRow c alertId "" hotlineNumber (iso now) None None None
                   CallLogs.connecting None in
  if existsb (fun r => String.eqb (CallLogs.id r) c) (call_logs (db w))
  then (Err "UNIQUE constraint failed: call_logs.id", mkCallWorld cs (db w))
  else if negb (match alertId with Some a => alert_exists (db w) a | None => true end)
  then (Err "FOREIGN KEY constraint failed", mkCallWorld cs (db w))
  else
    let w1 := mkCallWorld cs (with_call_logs (db w) (call_logs (db w) ++ [callLog])) in
    match att with
    | NoVoiceSdk None => (Ok c, w1)
    | NoVoiceSdk (Some m) => (Err m, w1)
    | ConnectThrows _ => (Ok c, updateCallStatus c CallLogs.failed w1)
    | ConnectReturns sid =>
        (Ok c, mkCallWorld (mkCallServiceState (Some c) (Some sid) (Some now)) (db w1))
    end.

(** The listeners [makeHotlineCall] registers on the call object. *)
Inductive CallEvent :=
| EvConnected
| EvDisconnected (now : Z) (i : string) (ns : NetInfoState)
| EvConnectFailure.

Definition on_call_event (iso : Z -> string) (c : string) (ev : CallEvent) (w : CallWorld)
  : CallWorld :=
  match ev with
  | EvConnected => updateCallStatus c CallLogs.connected w
  | EvDisconnected now i ns => handleCallEnd iso c now i ns w
  | EvConnectFailure => updateCallStatus c CallLogs.failed w
  end.

(** [endCall()] at time [now]: [activeCall.disconnect()] and
    [RNCallKeep.endCall] only signal the native side (what they cause
    arrives later as call events), then [handleCallEnd(activeCallId)] runs
    when [activeCallId] is truthy (set and not empty); [i] and [ns] are
    what its [enqueue] reads. *)
Definition endCall (iso : Z -> string) (now : Z) (i : string) (ns : NetInfoState)
    (w : CallWorld) : CallWorld :=
  match activeCallId (calls w) with
  | Some c => if String.eqb c "" then w else handleCallEnd iso c now i ns w
  | None => w
  end.

(* ================================================================== *)
(** ** [LocationService] and [ResponseService] *)

Record LocationSnapshot := mkLocationSnapshot {
  snap_latitude : JsNumber;
  snap_longitude : JsNumber;
  snap_accuracy : JsNumber;
  snap_altitude : option JsNumber;
  snap_timestamp : string
}.

(** The [coords] and [timestamp] of an [expo-location] fix. *)
Record Fix := mkFix {
  fix_latitude : JsNumber;
  fix_longitude : JsNumber;
  fix_accuracy : option JsNumber;
  fix_altitude : option JsNumber;
  fix_timestamp : Z
}.

(** [Location.getCurrentPositionAsync(...)] *)
Inductive CurrentPosition := CurrentFix (f : Fix) | CurrentError (message : string).

(** [Location.getLastKnownPositionAsync()] *)
Inductive LastKnownPosition :=
| LastKnownFix (f : Fix) | LastKnownNull | LastKnownError (message : string).

Definition snapshot_of (iso : Z -> string) (f : Fix) : LocationSnapshot :=
  mkLocationSnapshot (fix_latitude f) (fix_longitude f)
    (match fix_accuracy f with Some a => a | None => lit "-1" end)
    (fix_altitude f) (iso (fix_timestamp f)).

(** [captureLocation(timeoutMs)] *)
Definition captureLocation (iso : Z -> string) (cur : CurrentPosition) (last : LastKnownPosition)
  : option LocationSnapshot :=
  match cur with
  | CurrentFix f => Some (snapshot_of iso f)
  | CurrentError _ =>
      match last with
      | LastKnownFix f => Some (snapshot_of iso f)
      | _ => None
      end
  end.

Definition json_of_opt_num (o : option JsNumber) : json :=
  match o with Some n => JNum n | None => JNull end.

Definition json_of_opt_str (o : option string) : json :=
  match o with Some s => JStr s | None => JNull end.

(** [{ ...response }] *)
Definition response_payload (r : UserResponses.UserResponse) : json :=
  JObj [("id", JStr (UserResponses.id r)); ("alertId", JStr (UserResponses.alertId r));
        ("userId", JStr (UserResponses.userId r));
        ("response", JStr (response_type_name (UserResponses.response r)));
        ("latitude", json_of_opt_num (UserResponses.latitude r));
        ("longitude", json_of_opt_num (UserResponses.longitude r));
        ("locationAccuracy", json_of_opt_num (UserResponses.locationAccuracy r));
        ("respondedAt", JStr (UserResponses.respondedAt r));
        ("syncedAt", json_of_opt_str (UserResponses.syncedAt r))].

(** [submitResponse(alertId, userId, responseType)]: [cur] and [last] are
    the two location lookups, [rid] the response id, [now] the response
    time, [qid] the id [enqueue] generates and [ns] what it reads from
    [NetInfo.fetch()]; [store_up] says whether the database can be
    written.  The insert of [persistResponse] fails on a taken id or when
    no alert has [alertId] (the foreign key). *)
Definition submitResponse (iso : Z -> string) (store_up : bool) (alertId userId : string)
    (rt : UserResponseType) (cur : CurrentPosition) (last : LastKnownPosition)
    (rid : string) (now : Z) (qid : string) (ns : NetInfoState) (d : Database)
  : result UserResponses.UserResponse * Database :=
  let location := captureLocation iso cur last in
  let response :=
    UserResponses.mkUserResponse rid alertId userId rt
      (option_map snap_latitude location) (option_map snap_longitude location)
      (option_map snap_accuracy location) (iso now) None in
  if negb store_up then (Err "database unavailable", d)
  else if existsb (fun r => String.eqb (UserResponses.id r) rid) (user_responses d)
  then (Err "UNIQUE constraint failed: user_responses.id", d)
  else if negb (alert_exists d alertId) then (Err "FOREIGN KEY constraint failed", d)
  else
    let d1 := mkDatabase (call_logs d) (user_responses d ++ [response]) (sync_queue d) (alerts d) in
    let out := enqueue store_up (sync_queue d1) user_response (response_payload response)
                 qid (Z.to_nat (now / 1000)) ns in
    match enq_result out with
    | Ok _ => (Ok response, with_sync_queue d1 (enq_queue out))
    | Err e => (Err e, d1)
    end.

(** How SQLite orders [user_responses] rows [ORDER BY responded_at DESC]:
    the text column compared byte by byte, rows with equal [responded_at]
    in an order the query leaves open. *)
Record ResponseOrder := mkResponseOrder {
  order_responded_desc : list UserResponses.UserResponse -> list UserResponses.UserResponse
}.

Definition responded_ge (a b : UserResponses.UserResponse) : Prop :=
  String.leb (UserResponses.respondedAt b) (UserResponses.respondedAt a) = true.

Definition response_order_ok (ro : ResponseOrder) : Prop :=
  forall l, Permutation (order_responded_desc ro l) l /\
            StronglySorted responded_ge (order_responded_desc ro l).

(** [getResponseForAlert(alertId, userId)]: [SELECT * FROM user_responses
    WHERE alert_id = ? AND user_id = ? ORDER BY responded_at DESC LIMIT 1],
    [null] when there is no row; the row maps column by column to the
    [UserResponse] it was written from. *)
Definition getResponseForAlert (ro : ResponseOrder) (alertId userId : string) (d : Database)
  : option UserResponses.UserResponse :=
  match order_responded_desc ro
          (filter (fun r => String.eqb (UserResponses.alertId r) alertId &&
                            String.eqb (UserResponses.userId r) userId)
             (user_responses d)) with
  | [] => None
  | r :: _ => Some r
  end.

(** [getUserResponses(userId)]: [SELECT * FROM user_responses WHERE
    user_id = ? ORDER BY responded_at DESC], each row mapped. *)
Definition getUserResponses (ro : ResponseOrder) (userId : string) (d : Database)
  : list UserResponses.UserResponse :=
  order_responded_desc ro
    (filter (fun r => String.eqb (UserResponses.userId r) userId) (user_responses d)).

(* ================================================================== *)
(** ** Sample inputs *)

(** Duplicate-free lists of ids, decided. *)
Fixpoint nodupb (l : list string) : bool :=
  match l with
  | [] => true
  | x :: r => negb (existsb (String.eqb x) r) && nodupb r
  end.

Definition net_online : NetInfoState := mkNetInfo (Some true) (Some true).
Definition net_offline : NetInfoState := mkNetInfo (Some false) (Some false).

(** A backend that accepts every request. *)
Definition env_all_ok : DrainEnv :=
  mkDrainEnv (fun _ _ _ => Response true 200 "OK") (fun _ => net_online)
    (fun _ => "Unexpected end of JSON input").

(** A backend that cannot be reached, with the device offline. *)
Definition env_down : DrainEnv :=
  mkDrainEnv (fun _ _ _ => NetworkError "Network request failed") (fun _ => net_offline)
    (fun _ => "Unexpected end of JSON input").

(** [n] rows enqueued one second apart, with an empty object as payload. *)
Definition pending_rows (n : nat) : list row :=
  map (fun k => new_item (string_of_nat k) user_response (JObj []) k) (seq 0 n).

(** The state after one row is enqueued into the empty table, offline. *)
Definition st_enqueued : SyncState :=
  mkSyncState (isSyncing (mkSyncState false []))
    (enq_queue (enqueue true (queue (mkSyncState false [])) user_response (JObj []) "a" 0 net_offline)).

Definition pass_down (st : SyncState) : SyncState :=
  snd (fst (processSyncQueue isort_sql env_down st)).

(** Five passes against an unreachable backend exhaust the row. *)
Definition st_exhausted : SyncState :=
  pass_down (pass_down (pass_down (pass_down (pass_down st_enqueued)))).

Definition row_t1 : row := new_item "t1" user_response (JObj []) 10.
Definition row_t2 : row := new_item "t2" location_update (JObj []) 20.
Definition row_t3 : row := new_item "t3" call_log (JObj []) 30.

(** Three rows, not stored in creation order. *)
Definition st_three : SyncState := mkSyncState false [row_t3; row_t1; row_t2].

(** A call payload as [handleCallEnd] writes it. *)
Definition call_payload : json :=
  JObj [("callId", JStr "c1"); ("endedAt", JStr "61000");
        ("durationSeconds", JNum (lit "60"))].

Definition st_call : SyncState :=
  mkSyncState false [new_item "q1" call_log call_payload 61].

(** A stand-in for [toISOString]. *)
Definition iso_ms (t : Z) : string := string_of_nat (Z.to_nat t).

Definition db_empty : Database := mkDatabase [] [] [] [].

(** An empty database with one alert, ["alert1"]. *)
Definition db_alert : Database := mkDatabase [] [] [] ["alert1"].

Definition call_w0 : CallWorld := mkCallWorld (mkCallServiceState None None None) db_empty.

(** The same with the alert ["alert1"] stored. *)
Definition call_w0_alert : CallWorld := mkCallWorld (mkCallServiceState None None None) db_alert.

(** A call placed at 1 s, hung up at 61 s, with a redundant [disconnected]
    event at 62 s. *)
Definition call_w1 : CallWorld :=
  snd (makeHotlineCall iso_ms "911" None "c1" 1000 (ConnectReturns "CA1") call_w0).
Definition call_w2 : CallWorld :=
  on_call_event iso_ms "c1" (EvDisconnected 61000 "q1" net_online) call_w1.
Definition call_w3 : CallWorld :=
  on_call_event iso_ms "c1" (EvDisconnected 62000 "q2" net_online) call_w2.

(** The same call hung up with [endCall] at 61 s, then the [disconnected]
    event that [activeCall.disconnect()] delivers, at 61.5 s. *)
Definition call_hangup : CallWorld := endCall iso_ms 61000 "q1" net_online call_w1.
Definition call_hangup_event : CallWorld :=
  on_call_event iso_ms "c1" (EvDisconnected 61500 "q2" net_online) call_hangup.

(** One pass with the backend up after one row was enqueued. *)
Definition st_delivered : SyncState :=
  snd (fst (processSyncQueue isort_sql env_all_ok st_enqueued)).

(** A backend that answers every request with an HTTP error while the
    device stays connected. *)
Definition env_http_500 : DrainEnv :=
  mkDrainEnv (fun _ _ _ => Response false 500 "Internal Server Error") (fun _ => net_online)
    (fun _ => "Unexpected end of JSON input").


(** A row an interrupted pass left [syncing]. *)
Definition row_stuck : row := set_status syncing (new_item "s" call_log (JObj []) 5).
Definition st_stuck : SyncState := mkSyncState false [row_stuck; row_t1].

(** 102 delivered rows. *)
Definition synced_rows : list row := map set_synced (pending_rows 102).

(** A position fix that reports no accuracy. *)
Definition fix_sample : Fix := mkFix (lit "45.5") (lit "-122.6") None None 4000.

(** Sorting responses newest first, by insertion. *)
Fixpoint insert_responded (r : UserResponses.UserResponse) (l : list UserResponses.UserResponse)
  : list UserResponses.UserResponse :=
  match l with
  | [] => [r]
  | x :: l' =>
      if String.leb (UserResponses.respondedAt x) (UserResponses.respondedAt r)
      then r :: l else x :: insert_responded r l'
  end.

Definition isort_responses : ResponseOrder :=
  mkResponseOrder (fold_right insert_responded []).

(** An earlier response of the same user to the same alert. *)
Definition resp_old : UserResponses.UserResponse :=
  UserResponses.mkUserResponse "r0" "alert1" "user1" evacuating None None None "1000" None.
Definition db_resp : Database := mkDatabase [] [resp_old] [] ["alert1"].

(** The response submitted at 5 s with [fix_sample] as the current fix. *)
Definition submit_sample (d : Database) : result UserResponses.UserResponse * Database :=
  submitResponse iso_ms true "alert1" "user1" safe (CurrentFix fix_sample) LastKnownNull
    "r1" 5000 "q1" net_online d.

Definition resp_new : UserResponses.UserResponse :=
  UserResponses.mkUserResponse "r1" "alert1" "user1" safe (Some (lit "45.5"))
    (Some (lit "-122.6")) (Some (lit "-1")) (iso_ms 5000) None.

(* ================================================================== *)
(** * Proofs *)

(** ** [JSON.parse] reads back what [JSON.stringify] writes *)

Example stringify_parse_ex :
  let v := JObj [("a"%string, JNum (lit "1")); ("b"%string, JArr [JNull; JStr "x\y"; JBool true])] in
  json_parse (stringify v) = Some v.
Proof. vm_compute. reflexivity. Qed.

Lemma escape_char_parse (c : ascii) (t : list ascii) :
  parse_str_body (escape_char c ++ t) =
  match parse_str_body t with
  | Some (cs, rest) => Some (c :: cs, rest)
  | None => None
  end.
Proof.
  destruct c as [b0 b1 b2 b3 b4 b5 b6 b7].
  destruct b0, b1, b2, b3, b4, b5, b6, b7; reflexivity.
Qed.

Lemma quote_body_parse (s rest : list ascii) :
  parse_str_body (concat (map escape_char s) ++ dq :: rest) = Some (s, rest).
Proof.
  induction s as [|c s IH]; [reflexivity|].
  simpl. rewrite <- app_assoc, escape_char_parse, IH. reflexivity.
Qed.

Lemma num_char_props (c : ascii) :
  is_num_char c = true ->
  is_ws c = false /\ (c =? "]")%char = false /\ (c =? "}")%char = false /\
  (c =? ",")%char = false /\
  (c =? "n")%char = false /\ (c =? "t")%char = false /\ (c =? "f")%char = false /\
  (c =? dq)%char = false /\ (c =? "[")%char = false /\ (c =? "{")%char = false.
Proof.
  destruct c as [b0 b1 b2 b3 b4 b5 b6 b7].
  destruct b0, b1, b2, b3, b4, b5, b6, b7; vm_compute; intuition congruence.
Qed.

Lemma skip_ws_num (n rest : list ascii) :
  forallb is_num_char n = true -> n <> [] -> skip_ws (n ++ rest) = n ++ rest.
Proof.
  destruct n as [|c n]; [congruence|]. simpl. intros H _.
  apply andb_prop in H as [Hc _]. destruct (num_char_props c Hc) as [-> _]. reflexivity.
Qed.

Lemma span_num_app (n rest : list ascii) :
  forallb is_num_char n = true -> num_follow rest = true ->
  span_num (n ++ rest) = (n, rest).
Proof.
  intros Hn Hf. induction n as [|c n IH]; simpl.
  - destruct rest as [|c rest]; [reflexivity|]. simpl in Hf.
    apply negb_true_iff in Hf. simpl. rewrite Hf. reflexivity.
  - simpl in Hn. apply andb_prop in Hn as [Hc Hn]. rewrite Hc, IH by exact Hn. reflexivity.
Qed.

Lemma valid_number_chars (n : list ascii) :
  valid_number n = true -> forallb is_num_char n = true /\ n <> [].
Proof.
  unfold valid_number. intros H. apply andb_prop in H as [H1 H2]. split; [exact H1|].
  intros ->. discriminate.
Qed.

(** Induction over values, with a hypothesis for every element of an array
    and every member of an object. *)
Lemma json_nested_ind (P : json -> Prop)
  (HNull : P JNull) (HBool : forall b, P (JBool b)) (HNum : forall n, P (JNum n))
  (HStr : forall s, P (JStr s))
  (HArr : forall xs, Forall P xs -> P (JArr xs))
  (HObj : forall kvs, Forall (fun kv => P (snd kv)) kvs -> P (JObj kvs)) :
  forall v, P v.
Proof.
  fix F 1. intros [| b | n | s | xs | kvs].
  - exact HNull.
  - apply HBool.
  - apply HNum.
  - apply HStr.
  - apply HArr. revert xs. fix G 1. intros [|x xs]; constructor; [apply F | apply G].
  - apply HObj. revert kvs. fix G 1. intros [|[k x] kvs]; constructor; [apply F | apply G].
Qed.

(** The first character of a written value: not white space, and not a
    character that closes an array or an object. *)
Lemma stringify_head (v : json) :
  json_wf v ->
  exists c t, stringify v = c :: t /\ is_ws c = false /\
              (c =? "]")%char = false /\ (c =? "}")%char = false.
Proof.
  destruct v as [| [|] | n | s | [|x xs] | [|[k x] kvs]]; simpl; intros Hwf;
    try (eexists _, _; split; [reflexivity | vm_compute; auto]).
  apply valid_number_chars in Hwf as [Hn Hne].
  destruct n as [|c n]; [congruence|]. simpl in Hn. apply andb_prop in Hn as [Hc _].
  destruct (num_char_props c Hc) as (H1 & H2 & H3 & _).
  exists c, n. auto.
Qed.

Lemma json_wf_arr (xs : list json) : json_wf (JArr xs) <-> Forall json_wf xs.
Proof.
  simpl. induction xs as [|x xs IH]; split; intros H.
  - constructor.
  - exact I.
  - destruct H as [Hx Hxs]. constructor; [exact Hx | apply IH, Hxs].
  - inversion H; subst. split; [assumption | apply IH; assumption].
Qed.

Lemma json_wf_obj (kvs : list (string * json)) :
  json_wf (JObj kvs) <-> NoDup (map fst kvs) /\ Forall (fun kv => json_wf (snd kv)) kvs.
Proof.
  simpl. apply and_iff_compat_l.
  induction kvs as [|[k x] kvs IH]; simpl; split; intros H.
  - constructor.
  - exact I.
  - destruct H as [Hx Hr]. constructor; [exact Hx | apply IH, Hr].
  - inversion H; subst. split; [assumption | apply IH; assumption].
Qed.

Lemma obj_set_fresh (k : string) (v : json) (acc : list (string * json)) :
  ~ In k (map fst acc) -> obj_set k v acc = acc ++ [(k, v)].
Proof.
  induction acc as [|[k' v'] acc IH]; simpl; intros Hk; [reflexivity|].
  destruct (String.eqb_spec k k') as [-> | Hne].
  - exfalso. apply Hk. left. reflexivity.
  - rewrite IH by tauto. reflexivity.
Qed.

Lemma parse_elems_stringify (xs : list json) :
  forall x acc f rest,
  parses_back x -> Forall parses_back xs -> json_wf x -> Forall json_wf xs ->
  jsize x + list_sum (map (fun y => S (jsize y)) xs) < f ->
  parse_elems f (stringify x ++ concat (map (fun y => ","%char :: stringify y) xs) ++ "]"%char :: rest) acc
  = Some (JArr (acc ++ x :: xs), rest).
Proof.
  induction xs as [|y xs IH]; intros x acc f rest Px Pxs Wx Wxs Hf;
    (destruct f as [|f]; [lia|]); cbn [parse_elems].
  - simpl in Hf. simpl. rewrite (Px Wx f ("]"%char :: rest)) by (simpl; lia || reflexivity).
    reflexivity.
  - simpl in Hf. inversion Pxs as [|? ? Py Pxs']; inversion Wxs as [|? ? Wy Wxs']; subst.
    simpl. rewrite (Px Wx f) by (simpl; lia || reflexivity).
    simpl. rewrite <- app_assoc, IH by (auto; lia). rewrite <- app_assoc. reflexivity.
Qed.

Lemma quote_app (s t : list ascii) :
  quote s ++ t = dq :: concat (map escape_char s) ++ dq :: t.
Proof. unfold quote. simpl. rewrite <- app_assoc. reflexivity. Qed.

Lemma quote_parse_body (s t : list ascii) :
  parse_str_body (concat (map escape_char s) ++ dq :: t) = Some (s, t).
Proof. apply quote_body_parse. Qed.

Lemma parse_members_stringify (kvs : list (string * json)) :
  forall k x acc f rest,
  parses_back x -> Forall (fun kv => parses_back (snd kv)) kvs ->
  json_wf x -> Forall (fun kv => json_wf (snd kv)) kvs ->
  NoDup (map fst (acc ++ (k, x) :: kvs)) ->
  jsize x + list_sum (map (fun '(_, y) => S (jsize y)) kvs) < f ->
  parse_members f
    (quote (list_ascii_of_string k) ++ ":"%char :: stringify x
       ++ concat (map (fun '(k', y) =>
                         ","%char :: quote (list_ascii_of_string k') ++ ":"%char :: stringify y) kvs)
       ++ "}"%char :: rest) acc
  = Some (JObj (acc ++ (k, x) :: kvs), rest).
Proof.
  induction kvs as [|[k' y] kvs IH]; intros k x acc f rest Px Pkvs Wx Wkvs Hd Hf;
    (destruct f as [|f]; [lia|]); cbn [parse_members]; rewrite quote_app;
    cbn [skip_ws]; (replace (is_ws dq) with false by reflexivity);
    (replace (dq =? dq)%char with true by reflexivity); rewrite quote_parse_body;
    cbn [skip_ws]; (replace (is_ws ":"%char) with false by reflexivity);
    (replace (":" =? ":")%char with true by reflexivity); simpl in Hf.
  - cbn [map concat app].
    rewrite (Px Wx f ("}"%char :: rest)) by (simpl; lia || reflexivity). simpl.
    rewrite string_of_list_ascii_of_string, obj_set_fresh; [reflexivity|].
    rewrite map_app in Hd. simpl in Hd. apply NoDup_remove_2 in Hd.
    rewrite app_nil_r in Hd. exact Hd.
  - cbn [map concat]. rewrite <- !app_assoc. cbn [app]. rewrite <- app_assoc. cbn [app].
    rewrite (Px Wx f) by (simpl; lia || reflexivity). cbn [skip_ws].
    replace (is_ws ","%char) with false by reflexivity.
    replace (","%char =? ",")%char with true by reflexivity.
    rewrite string_of_list_ascii_of_string, obj_set_fresh.
    + inversion Pkvs as [|? ? Py Pkvs']; inversion Wkvs as [|? ? Wy Wkvs']; subst.
      rewrite IH; [rewrite <- app_assoc; reflexivity | auto .. | lia].
      rewrite <- app_assoc. exact Hd.
    + rewrite map_app in Hd. simpl in Hd. apply NoDup_remove_2 in Hd.
      intros Hin. apply Hd, in_or_app. left. exact Hin.
Qed.

Lemma skip_ws_stringify (v : json) (r : list ascii) :
  json_wf v -> skip_ws (stringify v ++ r) = stringify v ++ r.
Proof.
  intros Wv. destruct (stringify_head v Wv) as (c & t & Hs & Hws & _).
  rewrite Hs. simpl. rewrite Hws. reflexivity.
Qed.

Lemma parse_stringify (v : json) : parses_back v.
Proof.
  induction v as [| b | n | s | xs IH | kvs IH] using json_nested_ind;
    intros Wv f rest Hf Hr; (destruct f as [|f]; [simpl in Hf; lia|]).
  - reflexivity.
  - destruct b; reflexivity.
  - simpl in Wv. destruct (valid_number_chars n Wv) as [Hn Hne].
    cbn [stringify parse_value]. rewrite skip_ws_num by assumption.
    destruct n as [|c n]; [congruence|].
    simpl in Hn. apply andb_prop in Hn as [Hc Hn'].
    destruct (num_char_props c Hc) as (_ & _ & _ & _ & E1 & E2 & E3 & E4 & E5 & E6).
    cbn [app]. rewrite E1, E2, E3, E4, E5, E6. unfold parse_number.
    change (c :: n ++ rest) with ((c :: n) ++ rest).
    rewrite span_num_app by first [assumption | simpl; rewrite Hc, Hn'; reflexivity].
    rewrite Wv. reflexivity.
  - cbn [stringify]. rewrite quote_app. simpl. rewrite quote_parse_body.
    rewrite string_of_list_ascii_of_string. reflexivity.
  - apply json_wf_arr in Wv. destruct xs as [|x xs]; [reflexivity|].
    inversion IH as [|? ? Px Pxs]; inversion Wv as [|? ? Wx Wxs]; subst.
    cbn [stringify]. simpl in Hf. cbn [parse_value app].
    replace (skip_ws ("["%char :: _)) with
      ("["%char :: stringify x ++ (concat (map (fun y => ","%char :: stringify y) xs)
                                   ++ ["]"%char]) ++ rest)
      by (rewrite <- !app_assoc; reflexivity).
    cbn iota. simpl. rewrite skip_ws_stringify by exact Wx.
    destruct (stringify_head x Wx) as (c & t & Hs & _ & Hrb & _).
    rewrite Hs. cbn [app]. rewrite Hrb. change (c :: t ++ ?X) with ((c :: t) ++ X).
    rewrite <- Hs. rewrite <- app_assoc. cbn [app].
    apply (parse_elems_stringify xs x [] f rest Px Pxs Wx Wxs). lia.
  - apply json_wf_obj in Wv as [Hd Wv]. destruct kvs as [|[k x] kvs]; [reflexivity|].
    inversion IH as [|? ? Px Pkvs]; inversion Wv as [|? ? Wx Wkvs]; subst.
    cbn [stringify]. simpl in Hf. cbn [parse_value app].
    set (body := quote (list_ascii_of_string k) ++ ":"%char :: stringify x
         ++ concat (map (fun '(k', y) =>
              ","%char :: quote (list_ascii_of_string k') ++ ":"%char :: stringify y) kvs)
         ++ "}"%char :: rest).
    replace (skip_ws ("{"%char :: _)) with ("{"%char :: body)
      by (subst body; rewrite <- !app_assoc; reflexivity).
    cbn iota. cbn [Ascii.eqb Bool.eqb].
    assert (Hb : skip_ws body = body /\ exists t, body = dq :: t).
    { subst body. rewrite quote_app. split; [reflexivity | eexists; reflexivity]. }
    destruct Hb as [-> [t Ht]]. rewrite Ht at 1.
    replace (dq =? "}")%char with false by reflexivity. cbn iota. rewrite <- Ht. subst body.
    apply (parse_members_stringify kvs k x [] f rest); auto. lia.
Qed.

Lemma jsize_le_length (v : json) : json_wf v -> jsize v <= length (stringify v).
Proof.
  induction v as [| b | n | s | xs IH | kvs IH] using json_nested_ind; intros Wv.
  - simpl. lia.
  - destruct b; simpl; lia.
  - simpl in Wv. destruct (valid_number_chars n Wv) as [_ Hne].
    destruct n; [congruence | simpl; lia].
  - simpl. unfold quote. simpl. rewrite length_app. simpl. lia.
  - apply json_wf_arr in Wv. destruct xs as [|x xs]; [simpl; lia|].
    inversion IH as [|? ? Px Pxs]; inversion Wv as [|? ? Wx Wxs]; subst.
    assert (Hl : list_sum (map (fun y => S (jsize y)) xs)
                 <= length (concat (map (fun y => ","%char :: stringify y) xs))).
    { clear - Pxs Wxs. induction xs as [|y xs IHxs]; [simpl; lia|].
      inversion Pxs; inversion Wxs; subst. simpl. rewrite length_app.
      specialize (IHxs ltac:(assumption) ltac:(assumption)).
      match goal with H : json_wf y -> _ |- _ => specialize (H ltac:(assumption)) end.
      lia. }
    specialize (Px Wx). simpl. rewrite !length_app. simpl. lia.
  - apply json_wf_obj in Wv as [_ Wv]. destruct kvs as [|[k x] kvs]; [simpl; lia|].
    inversion IH as [|? ? Px Pkvs]; inversion Wv as [|? ? Wx Wkvs]; subst.
    assert (Hl : list_sum (map (fun '(_, y) => S (jsize y)) kvs)
                 <= length (concat (map (fun '(k', y) =>
                      ","%char :: quote (list_ascii_of_string k') ++ ":"%char :: stringify y) kvs))).
    { clear - Pkvs Wkvs. induction kvs as [|[k' y] kvs IHkvs]; [simpl; lia|].
      inversion Pkvs; inversion Wkvs; subst. simpl in *. rewrite !length_app. simpl.
      specialize (IHkvs ltac:(assumption) ltac:(assumption)).
      match goal with H : json_wf y -> _ |- _ => specialize (H ltac:(assumption)) end.
      lia. }
    specialize (Px Wx). simpl in Px, Hl |- *. rewrite !length_app. simpl. lia.
Qed.

(** [JSON.parse(JSON.stringify(v))] gives [v] back. *)
Lemma json_parse_stringify (v : json) : json_wf v -> json_parse (stringify v) = Some v.
Proof.
  intros Wv. unfold json_parse.
  pose proof (parse_stringify v Wv (S (length (stringify v))) []) as H.
  rewrite app_nil_r in H. rewrite H; [reflexivity | | reflexivity].
  pose proof (jsize_le_length v Wv). lia.
Qed.

(** ** The drain loop *)

Lemma endpoint_sync_type_some (t : SyncType) :
  exists ep, endpoints (sync_type_name t) = Some ep.
Proof. destruct t; eexists; reflexivity. Qed.

Lemma attempt_shape env n item sent out :
  attempt env n item = (sent, out) ->
  (json_parse (list_ascii_of_string (payload item)) = None /\ sent = [] /\
   out = Some (syntax_error_message env (list_ascii_of_string (payload item)))) \/
  exists v ep, json_parse (list_ascii_of_string (payload item)) = Some v /\
    endpoints (sync_type_name (type item)) = Some ep /\
    sent = [Post (id item) (baseUrl ++ ep) (stringify v)].
Proof.
  unfold attempt, sendToBackend.
  destruct (json_parse _) as [v|] eqn:Hp; [|intros H; inversion H; auto].
  destruct (endpoint_sync_type_some (type item)) as [ep He]. rewrite He.
  intros H; inversion H; subst. right. exists v, ep. auto.
Qed.

Lemma attempt_events env n item sent out :
  attempt env n item = (sent, out) ->
  (forall tr, attempts (sent ++ tr) = attempts tr) /\
  (forall tr j, outcome_of (sent ++ tr) j = outcome_of tr j).
Proof.
  intros H. destruct (attempt_shape _ _ _ _ _ H) as [(_ & -> & _) | (v & ep & _ & _ & ->)];
    split; reflexivity.
Qed.

Ltac loop_step H :=
  match type of H with
  | drain_loop ?env ?n (?item :: ?rest) ?q ?cnt = _ =>
    cbn [drain_loop] in H;
    let Ha := fresh "Ha" in
    let Hns := fresh "Hns" in
    let Hr := fresh "Hr" in
    destruct (attempt env n item) as [sent out] eqn:Ha;
    destruct out as [msg|];
    [ destruct (netinfo_connected (netinfo_after env n)) eqn:Hns;
      [ destruct (drain_loop env (S n) rest _ cnt) as [[c1 q1] tr1] eqn:Hr | ]
    | destruct (drain_loop env (S n) rest _ (S cnt)) as [[c1 q1] tr1] eqn:Hr ];
    inversion H; subst; clear H
  end.

Lemma outcome_of_app (l tr : list SyncEvent) (j : string) :
  outcome_of (l ++ tr) j =
  match outcome_of l j with Some o => Some o | None => outcome_of tr j end.
Proof.
  induction l as [|e l IH]; [reflexivity|].
  destruct e; simpl; try apply IH; destruct (String.eqb _ j); auto.
Qed.

(** Rows get an outcome only when they were attempted. *)
Lemma drain_outcome_attempted env n items q cnt c q' tr i :
  drain_loop env n items q cnt = (c, q', tr) ->
  outcome_of tr i <> None -> In i (map id (attempts tr)).
Proof.
  revert n q cnt c q' tr.
  induction items as [|item rest IH]; intros n q cnt c q' tr H Ho.
  - inversion H; subst. contradiction.
  - loop_step H; destruct (attempt_events _ _ _ _ _ Ha) as [Hat Hou];
      cbn [attempts flat_map]; unfold attempts in Hat; rewrite Hat;
      cbn [outcome_of] in Ho; rewrite Hou in Ho; simpl in Ho |- *;
      destruct (String.eqb_spec (id item) i); auto; right; eauto.
Qed.

(** The rows a pass attempts are a prefix of the rows it selected. *)
Lemma drain_attempts_prefix env n items q cnt c q' tr :
  drain_loop env n items q cnt = (c, q', tr) ->
  exists rest, items = attempts tr ++ rest.
Proof.
  revert n q cnt c q' tr.
  induction items as [|item rest IH]; intros n q cnt c q' tr H.
  - inversion H; subst. exists []. reflexivity.
  - loop_step H; destruct (attempt_events _ _ _ _ _ Ha) as [Hat _];
      cbn [attempts flat_map]; unfold attempts in Hat; rewrite Hat; simpl.
    + destruct (IH _ _ _ _ _ _ Hr) as [r' ->]. exists r'. reflexivity.
    + exists rest. reflexivity.
    + destruct (IH _ _ _ _ _ _ Hr) as [r' ->]. exists r'. reflexivity.
Qed.

Lemma drain_outcome_none env n items q cnt c q' tr i :
  drain_loop env n items q cnt = (c, q', tr) ->
  ~ In i (map id items) -> outcome_of tr i = None.
Proof.
  intros H Hi. destruct (outcome_of tr i) eqn:Ho; [|reflexivity].
  exfalso. apply Hi.
  pose proof (drain_outcome_attempted _ _ _ _ _ _ _ _ i H) as Ha.
  destruct (drain_attempts_prefix _ _ _ _ _ _ _ _ H) as [rest Hp].
  rewrite Hp, map_app. apply in_or_app. left. apply Ha. congruence.
Qed.

Lemma update_where_compose i f g q :
  (forall r, id (f r) = id r) ->
  update_where i g (update_where i f q) = update_where i (fun r => g (f r)) q.
Proof.
  intros Hf. unfold update_where. rewrite map_map. apply map_ext. intros r.
  destruct (String.eqb (id r) i) eqn:E; [|rewrite E]; auto.
  rewrite Hf, E. reflexivity.
Qed.

(** The table after the loop: every row takes the outcome the pass gave to
    its id. *)
Lemma drain_queue env n items q cnt c q' tr :
  NoDup (map id items) ->
  drain_loop env n items q cnt = (c, q', tr) ->
  q' = map (apply_outcome tr) q.
Proof.
  revert n q cnt c q' tr.
  induction items as [|item rest IH]; intros n q cnt c q' tr Hnd H.
  - inversion H; subst. unfold apply_outcome. simpl. symmetry. apply map_id.
  - simpl in Hnd. inversion Hnd as [|? ? Hni Hnd']; subst.
    loop_step H; destruct (attempt_events _ _ _ _ _ Ha) as [_ Hou].
    + rewrite (IH _ _ _ _ _ _ Hnd' Hr).
      rewrite update_where_compose by reflexivity.
      unfold update_where. rewrite map_map. apply map_ext. intros r.
      unfold apply_outcome at 2. cbn [outcome_of]. rewrite Hou. cbn [outcome_of].
      destruct (String.eqb_spec (id item) (id r)) as [E|E].
      * rewrite E, String.eqb_refl. unfold apply_outcome.
        rewrite (drain_outcome_none _ _ _ _ _ _ _ _ _ Hr) by (simpl; congruence).
        reflexivity.
      * replace (String.eqb (id r) (id item)) with false
          by (symmetry; apply String.eqb_neq; congruence).
        reflexivity.
    + rewrite update_where_compose by reflexivity.
      unfold update_where. apply map_ext. intros r.
      unfold apply_outcome. cbn [outcome_of]. rewrite Hou. cbn [outcome_of].
      destruct (String.eqb_spec (id item) (id r)) as [E|E].
      * rewrite E, String.eqb_refl. reflexivity.
      * replace (String.eqb (id r) (id item)) with false
          by (symmetry; apply String.eqb_neq; congruence).
        reflexivity.
    + rewrite (IH _ _ _ _ _ _ Hnd' Hr).
      rewrite update_where_compose by reflexivity.
      unfold update_where. rewrite map_map. apply map_ext. intros r.
      unfold apply_outcome at 2. cbn [outcome_of]. rewrite Hou. cbn [outcome_of].
      destruct (String.eqb_spec (id item) (id r)) as [E|E].
      * rewrite E, String.eqb_refl. unfold apply_outcome.
        rewrite (drain_outcome_none _ _ _ _ _ _ _ _ _ Hr) by (simpl; congruence).
        reflexivity.
      * replace (String.eqb (id r) (id item)) with false
          by (symmetry; apply String.eqb_neq; congruence).
        reflexivity.
Qed.

(** Every request of a pass is the delivery of an attempted row: its
    parsed payload, re-serialised, to the endpoint of its type. *)
Lemma drain_post env n items q cnt c q' tr i u b :
  drain_loop env n items q cnt = (c, q', tr) ->
  In (Post i u b) tr ->
  exists x, In x (attempts tr) /\ id x = i /\
    exists v ep, json_parse (list_ascii_of_string (payload x)) = Some v /\
      endpoints (sync_type_name (type x)) = Some ep /\
      u = (baseUrl ++ ep)%string /\ b = stringify v.
Proof.
  revert n q cnt c q' tr.
  induction items as [|item rest IH]; intros n q cnt c q' tr H Hin.
  - inversion H; subst. destruct Hin.
  - loop_step H; destruct (attempt_events _ _ _ _ _ Ha) as [Hat _];
      cbn [attempts flat_map]; unfold attempts in Hat; rewrite Hat;
      destruct Hin as [Hin|Hin]; try discriminate;
      apply in_app_or in Hin; destruct Hin as [Hin|Hin];
      try (destruct (attempt_shape _ _ _ _ _ Ha) as [(_ & -> & _) | (v & ep & Hp & He & ->)];
           [destruct Hin | destruct Hin as [Hin|[]]; inversion Hin; subst;
                           exists item; split; [left; reflexivity | split; [reflexivity|]];
                           exists v, ep; auto]).
    + destruct Hin as [Hin|[Hin|Hin]]; try discriminate.
      destruct (IH _ _ _ _ _ _ Hr Hin) as (x & Hx & Rest). exists x. split; [right; exact Hx | exact Rest].
    + destruct Hin as [Hin|[Hin|[]]]; discriminate.
    + destruct Hin as [Hin|Hin]; try discriminate.
      destruct (IH _ _ _ _ _ _ Hr Hin) as (x & Hx & Rest). exists x. split; [right; exact Hx | exact Rest].
Qed.

(** An attempted row whose payload parses is posted. *)
Lemma drain_attempted_posted env n items q cnt c q' tr x v :
  drain_loop env n items q cnt = (c, q', tr) ->
  In x (attempts tr) ->
  json_parse (list_ascii_of_string (payload x)) = Some v ->
  exists u, In (Post (id x) u (stringify v)) tr.
Proof.
  revert n q cnt c q' tr.
  induction items as [|item rest IH]; intros n q cnt c q' tr H Hx Hp.
  - inversion H; subst. destruct Hx.
  - loop_step H; destruct (attempt_events _ _ _ _ _ Ha) as [Hat _];
      cbn [attempts flat_map] in Hx; unfold attempts in Hat; rewrite Hat in Hx;
      simpl in Hx; destruct Hx as [<-|Hx];
      try (destruct (attempt_shape _ _ _ _ _ Ha) as [(Hp' & _ & _) | (v' & ep & Hp' & He & ->)];
           rewrite Hp in Hp'; [discriminate Hp' | injection Hp' as <-;
                                 exists (baseUrl ++ ep)%string; right; left; reflexivity]).
    + destruct (IH _ _ _ _ _ _ Hr Hx Hp) as [u Hu]. exists u. right.
      apply in_or_app. right. right. right. exact Hu.
    + destruct Hx.
    + destruct (IH _ _ _ _ _ _ Hr Hx Hp) as [u Hu]. exists u. right.
      apply in_or_app. right. right. exact Hu.
Qed.

(** A connectivity check that reports offline ends the pass: the row it
    follows is the last one attempted. *)
Lemma drain_offline_last env n items q cnt c q' tr i ns :
  drain_loop env n items q cnt = (c, q', tr) ->
  In (NetCheck i ns) tr -> netinfo_connected ns = false ->
  exists pre x, attempts tr = pre ++ [x] /\ id x = i.
Proof.
  revert n q cnt c q' tr.
  induction items as [|item rest IH]; intros n q cnt c q' tr H Hin Hoff.
  - inversion H; subst. destruct Hin.
  - loop_step H; destruct (attempt_events _ _ _ _ _ Ha) as [Hat _];
      cbn [attempts flat_map]; unfold attempts in Hat; rewrite Hat;
      destruct Hin as [Hin|Hin]; try discriminate;
      apply in_app_or in Hin;
      destruct Hin as [Hin|Hin];
      try (destruct (attempt_shape _ _ _ _ _ Ha) as [(_ & -> & _) | (v & ep & _ & _ & ->)];
           [destruct Hin | destruct Hin as [Hin|[]]; discriminate]).
    + destruct Hin as [Hin|[Hin|Hin]]; try discriminate.
      * inversion Hin; subst. congruence.
      * destruct (IH _ _ _ _ _ _ Hr Hin Hoff) as (pre & x & Hp & Hx).
        exists (item :: pre), x. split; [|exact Hx].
        simpl. unfold attempts in Hp. rewrite Hp. reflexivity.
    + destruct Hin as [Hin|[Hin|[]]]; try discriminate.
      inversion Hin; subst. exists [], item. split; reflexivity.
    + destruct Hin as [Hin|Hin]; try discriminate.
      destruct (IH _ _ _ _ _ _ Hr Hin Hoff) as (pre & x & Hp & Hx).
      exists (item :: pre), x. split; [|exact Hx].
      simpl. unfold attempts in Hp. rewrite Hp. reflexivity.
Qed.

(** A pass in which every attempt succeeds attempts and syncs every
    selected row. *)
Lemma drain_all_ok env n items q cnt c q' tr :
  (forall m x, In x items -> snd (attempt env m x) = None) ->
  drain_loop env n items q cnt = (c, q', tr) ->
  c = cnt + length items /\ attempts tr = items /\
  (forall x, In x items -> outcome_of tr (id x) = Some None).
Proof.
  revert n q cnt c q' tr.
  induction items as [|item rest IH]; intros n q cnt c q' tr Hok H.
  - inversion H; subst. split; [simpl; lia | split; [reflexivity | intros x []]].
  - loop_step H;
      try (pose proof (Hok n item (or_introl eq_refl)) as Hn; rewrite Ha in Hn; discriminate).
    destruct (attempt_events _ _ _ _ _ Ha) as [Hat Hou].
    destruct (IH _ _ _ _ _ _ (fun m x Hx => Hok m x (or_intror Hx)) Hr) as (Hc & Hatt & Hout).
    split; [simpl; lia|]. split.
    + cbn [attempts flat_map]. unfold attempts in Hat, Hatt. rewrite Hat. simpl. rewrite Hatt. reflexivity.
    + intros x Hx. cbn [outcome_of]. rewrite Hou. cbn [outcome_of].
      destruct (String.eqb_spec (id item) (id x)); [reflexivity|].
      destruct Hx as [<-|Hx]; [congruence | auto].
Qed.

Lemma drain_marks env n items q cnt c q' tr i :
  NoDup (map id items) ->
  drain_loop env n items q cnt = (c, q', tr) ->
  (forall m, In (MarkFailed i m) tr -> outcome_of tr i = Some (Some m)) /\
  (In (MarkSynced i) tr -> outcome_of tr i = Some None).
Proof.
  revert n q cnt c q' tr.
  induction items as [|item rest IH]; intros n q cnt c q' tr Hnd H.
  - inversion H; subst. split; [intros m []| intros []].
  - simpl in Hnd. inversion Hnd as [|? ? Hni Hnd']; subst.
    loop_step H; destruct (attempt_events _ _ _ _ _ Ha) as [_ Hou];
      destruct (attempt_shape _ _ _ _ _ Ha) as [(_ & -> & _) | (v & ep & _ & _ & ->)];
      cbn [outcome_of app]; try rewrite Hou;
      repeat match goal with
      | Hr : drain_loop _ _ rest _ _ = _ |- _ =>
          let Hm := fresh "Hm" in
          pose proof (IH _ _ _ _ _ _ Hnd' Hr) as Hm;
          pose proof (fun j => drain_outcome_none _ _ _ _ _ _ _ _ j Hr) as Hnone; clear Hr
      end;
      (split; [intros m0 Hin | intros Hin]); cbn [In] in Hin;
      repeat match goal with
      | Hin : _ \/ _ |- _ => destruct Hin as [Hin|Hin]
      | Hin : False |- _ => destruct Hin
      | Hin : MarkSyncing _ = _ |- _ => discriminate Hin
      | Hin : Post _ _ _ = _ |- _ => discriminate Hin
      | Hin : NetCheck _ _ = _ |- _ => discriminate Hin
      | Hin : MarkFailed _ _ = MarkSynced _ |- _ => discriminate Hin
      | Hin : MarkSynced _ = MarkFailed _ _ |- _ => discriminate Hin
      | Hin : MarkSynced _ = MarkSynced _ |- _ => inversion Hin; subst; clear Hin
      | Hin : MarkFailed _ _ = MarkFailed _ _ |- _ => inversion Hin; subst; clear Hin
      end;
      cbn [outcome_of]; try rewrite String.eqb_refl; try reflexivity;
      (destruct (String.eqb_spec (id item) i) as [<-|E];
       [ exfalso; apply Hni;
         assert (Ho : outcome_of tr1 (id item) <> None)
           by (first [rewrite (proj1 Hm _ Hin) | rewrite (proj2 Hm Hin)]; discriminate);
         destruct (In_dec string_dec (id item) (map id rest)) as [Hi|Hi];
         [exact Hi | exfalso; apply Ho, Hnone, Hi]
       | first [apply (proj1 Hm _ Hin) | apply (proj2 Hm Hin)]]).
Qed.

Lemma perm_filter (p : row -> bool) (l l' : list row) :
  Permutation l l' -> Permutation (filter p l) (filter p l').
Proof.
  induction 1; simpl.
  - constructor.
  - destruct (p x); auto.
  - destruct (p x), (p y); auto. constructor.
  - eapply Permutation_trans; eauto.
Qed.

Lemma NoDup_map_filter {B} (f : row -> B) (p : row -> bool) (l : list row) :
  NoDup (map f l) -> NoDup (map f (filter p l)).
Proof.
  induction l as [|x l IH]; simpl; intros H; [constructor|].
  inversion H as [|? ? Hx Hl]; subst.
  destruct (p x); simpl; auto.
  constructor; auto. intros Hin. apply Hx.
  apply in_map_iff in Hin. destruct Hin as (y & Hy & Hin).
  apply filter_In in Hin. apply in_map_iff. exists y. tauto.
Qed.

Lemma same_id_in (l : list row) x y :
  NoDup (map id l) -> In x l -> In y l -> id x = id y -> x = y.
Proof.
  induction l as [|z l IH]; simpl; intros Hnd Hx Hy E; [destruct Hx|].
  inversion Hnd as [|? ? Hz Hl]; subst.
  destruct Hx as [<-|Hx], Hy as [<-|Hy]; auto.
  - exfalso. apply Hz. rewrite E. apply in_map. exact Hy.
  - exfalso. apply Hz. rewrite <- E. apply in_map. exact Hx.
Qed.

Lemma apply_outcome_id tr r : id (apply_outcome tr r) = id r.
Proof. unfold apply_outcome. destruct (outcome_of tr (id r)) as [[m|]|]; reflexivity. Qed.

Lemma map_id_apply_outcome tr q : map id (map (apply_outcome tr) q) = map id q.
Proof. rewrite map_map. apply map_ext. apply apply_outcome_id. Qed.

(** What a pass that is not locked out does, spelled out. *)
Lemma pass_run so env st cnt st' tr :
  sql_order_ok so -> NoDup (map id (queue st)) -> isSyncing st = false ->
  processSyncQueue so env st = (cnt, st', tr) ->
  drain_loop env 0 (candidates so (queue st)) (queue st) 0
    = (cnt, map (apply_outcome tr) (queue st), tr) /\
  st' = mkSyncState false (prune so (map (apply_outcome tr) (queue st))) /\
  NoDup (map id (candidates so (queue st))) /\
  (forall x, In x (candidates so (queue st)) <-> In x (queue st) /\ eligible x = true) /\
  Sorted created_le (candidates so (queue st)).
Proof.
  intros Hso Hnd Hs H. unfold processSyncQueue in H. rewrite Hs in H.
  destruct (Hso (filter eligible (queue st))) as (Hp & Hsort & _).
  assert (Hndc : NoDup (map id (candidates so (queue st)))).
  { unfold candidates. eapply Permutation_NoDup.
    - apply Permutation_map. symmetry. exact Hp.
    - apply NoDup_map_filter. exact Hnd. }
  destruct (drain_loop _ _ _ _ _) as [[c q'] tr'] eqn:Hd. inversion H; subst.
  pose proof (drain_queue _ _ _ _ _ _ _ _ Hndc Hd) as Hq. subst q'.
  split; [reflexivity|]. split; [reflexivity|]. split; [exact Hndc|]. split; [|exact Hsort].
  intros x. unfold candidates. rewrite <- filter_In.
  split; intros Hx; [eapply Permutation_in; eauto | eapply Permutation_in; [symmetry|]; eauto].
Qed.

Lemma apply_outcome_cases tr r :
  (outcome_of tr (id r) = None /\ apply_outcome tr r = r) \/
  (outcome_of tr (id r) = Some None /\ apply_outcome tr r = set_synced (set_status syncing r)) \/
  (exists m, outcome_of tr (id r) = Some (Some m) /\
             apply_outcome tr r = set_failed m (set_status syncing r)).
Proof.
  unfold apply_outcome. destruct (outcome_of tr (id r)) as [[m|]|]; eauto.
Qed.

Lemma eligible_retry r : eligible r = true -> retry_count r < MAX_RETRIES.
Proof.
  unfold eligible. intros H. apply andb_prop in H. destruct H as [_ H].
  apply Nat.ltb_lt. exact H.
Qed.

(** In a pass, a row that receives an outcome is one the pass selected
    and attempted. *)
Lemma pass_outcome_attempted so env st cnt st' tr r :
  sql_order_ok so -> NoDup (map id (queue st)) -> isSyncing st = false ->
  processSyncQueue so env st = (cnt, st', tr) ->
  In r (queue st) -> outcome_of tr (id r) <> None ->
  eligible r = true /\ In r (attempts tr).
Proof.
  intros Hso Hnd Hs H Hr Ho.
  destruct (pass_run _ _ _ _ _ _ Hso Hnd Hs H) as (Hd & _ & _ & Hc & _).
  pose proof (drain_outcome_attempted _ _ _ _ _ _ _ _ _ Hd Ho) as Hi.
  apply in_map_iff in Hi. destruct Hi as (x & Hx & Hin).
  destruct (drain_attempts_prefix _ _ _ _ _ _ _ _ Hd) as [rest Hp].
  assert (Hxc : In x (candidates so (queue st))) by (rewrite Hp; apply in_or_app; auto).
  apply Hc in Hxc. destruct Hxc as [Hxq Hxe].
  rewrite (same_id_in _ _ _ Hnd Hxq Hr Hx) in Hxe, Hin. auto.
Qed.

Lemma pass_attempts_selected so env st cnt st' tr x :
  sql_order_ok so -> NoDup (map id (queue st)) -> isSyncing st = false ->
  processSyncQueue so env st = (cnt, st', tr) ->
  In x (attempts tr) -> In x (queue st) /\ eligible x = true.
Proof.
  intros Hso Hnd Hs H Hx.
  destruct (pass_run _ _ _ _ _ _ Hso Hnd Hs H) as (Hd & _ & _ & Hc & _).
  destruct (drain_attempts_prefix _ _ _ _ _ _ _ _ Hd) as [rest Hp].
  apply Hc. rewrite Hp. apply in_or_app. auto.
Qed.

Lemma prune_keeps_unsynced so q r :
  In r q -> is_synced r = false -> In r (prune so q).
Proof.
  intros Hr Hs. unfold prune. apply filter_In. split; [exact Hr|]. rewrite Hs. reflexivity.
Qed.

Lemma prune_subset so q r : In r (prune so q) -> In r q.
Proof. unfold prune. rewrite filter_In. tauto. Qed.

Lemma NoDup_map_snoc (l : list row) x :
  NoDup (map id l) -> ~ In (id x) (map id l) -> NoDup (map id (l ++ [x])).
Proof.
  intros Hl Hx. rewrite map_app. simpl.
  eapply Permutation_NoDup; [apply Permutation_cons_append | constructor; auto].
Qed.

Lemma existsb_id_false (q : list row) i :
  existsb (fun r => String.eqb (id r) i) q = false -> ~ In i (map id q).
Proof.
  intros H Hin. apply in_map_iff in Hin. destruct Hin as (r & Hr & Hin).
  assert (existsb (fun r => String.eqb (id r) i) q = true) by
    (apply existsb_exists; exists r; split; [exact Hin | apply String.eqb_eq; exact Hr]).
  congruence.
Qed.

(** What [enqueue] leaves in the table. *)
Lemma enqueue_queue store_up q t p i now ns :
  enq_queue (enqueue store_up q t p i now ns) = q \/
  (store_up = true /\ ~ In i (map id q) /\
   enq_queue (enqueue store_up q t p i now ns) = q ++ [new_item i t p now]).
Proof.
  unfold enqueue, insert_row. destruct store_up; simpl; [|auto].
  destruct (existsb _ q) eqn:E; simpl; [auto|].
  right. split; [reflexivity|]. split; [apply existsb_id_false; exact E | reflexivity].
Qed.

(** The invariant of the states the service goes through. *)
Lemma reachable_inv so st :
  sql_order_ok so -> reachable so st ->
  isSyncing st = false /\ NoDup (map id (queue st)) /\
  Forall (fun r => retry_count r <= MAX_RETRIES) (queue st).
Proof.
  intros Hso. induction 1 as [| st store_up t p i now ns _ IH | st env _ IH].
  - simpl. repeat split; constructor.
  - destruct IH as (Hs & Hnd & Hf). simpl. split; [exact Hs|].
    destruct (enqueue_queue store_up (queue st) t p i now ns) as [-> | (_ & Hi & ->)];
      [auto|]. split.
    + apply NoDup_map_snoc; assumption.
    + apply Forall_app. split; [exact Hf|]. constructor; [simpl; unfold MAX_RETRIES; lia | constructor].
  - destruct IH as (Hs & Hnd & Hf).
    destruct (processSyncQueue so env st) as [[cnt st'] tr] eqn:H. simpl.
    destruct (pass_run _ _ _ _ _ _ Hso Hnd Hs H) as (_ & -> & _). simpl.
    split; [reflexivity|]. split.
    + unfold prune. apply NoDup_map_filter. rewrite map_id_apply_outcome. exact Hnd.
    + apply Forall_forall. intros r' Hr'. apply prune_subset in Hr'.
      apply in_map_iff in Hr'. destruct Hr' as (r & <- & Hr).
      rewrite Forall_forall in Hf. pose proof (Hf r Hr) as Hb.
      destruct (apply_outcome_cases tr r) as [(_ & ->) | [(Ho & ->) | (m & Ho & ->)]];
        [exact Hb | exact Hb|].
      destruct (pass_outcome_attempted _ _ _ _ _ _ r Hso Hnd Hs H Hr) as [He _];
        [congruence|].
      apply eligible_retry in He. simpl. lia.
Qed.

(** ** The insertion-sort order is an order SQLite may use *)

Section InsertSort.
Variable le : nat -> nat -> bool.
Variable R : row -> row -> Prop.
Hypothesis le_true : forall a b, le (created_at a) (created_at b) = true -> R a b.
Hypothesis le_false : forall a b, le (created_at a) (created_at b) = false -> R b a.

Lemma insert_by_perm r l : Permutation (insert_by le r l) (r :: l).
Proof.
  induction l as [|x l IH]; simpl; [auto|].
  destruct (le _ _); [auto|].
  eapply Permutation_trans; [apply perm_skip, IH | apply perm_swap].
Qed.

Lemma insert_by_sorted r l : Sorted R l -> Sorted R (insert_by le r l).
Proof.
  induction l as [|x l IH]; simpl; intros Hs; [auto|].
  destruct (le (created_at r) (created_at x)) eqn:E.
  - constructor; [exact Hs | constructor; auto].
  - apply Sorted_inv in Hs. destruct Hs as [Hs Hh].
    constructor; [auto|].
    destruct l as [|y l']; simpl; [constructor; auto|].
    destruct (le (created_at r) (created_at y)); constructor; [auto|].
    inversion Hh; auto.
Qed.

Lemma isort_ok l :
  Permutation (fold_right (insert_by le) [] l) l /\ Sorted R (fold_right (insert_by le) [] l).
Proof.
  induction l as [|x l [IHp IHs]]; simpl; [auto|]. split.
  - eapply Permutation_trans; [apply insert_by_perm | auto].
  - apply insert_by_sorted. exact IHs.
Qed.
End InsertSort.

Lemma isort_sql_ok : sql_order_ok isort_sql.
Proof.
  intros l. unfold isort_sql. cbn [order_created_asc order_created_desc].
  destruct (isort_ok Nat.leb created_le) with (l := l) as [H1 H2].
  - intros a b E. apply Nat.leb_le. exact E.
  - intros a b E. apply Nat.leb_gt in E. unfold created_le. lia.
  - destruct (isort_ok (fun a b => Nat.leb b a) created_ge) with (l := l) as [H3 H4].
    + intros a b E. apply Nat.leb_le. exact E.
    + intros a b E. apply Nat.leb_gt in E. unfold created_ge. lia.
    + auto.
Qed.

Lemma Sorted_app_l {A} (R : A -> A -> Prop) (l1 l2 : list A) :
  Sorted R (l1 ++ l2) -> Sorted R l1.
Proof.
  induction l1 as [|a l1 IH]; simpl; intros H; [constructor|].
  apply Sorted_inv in H. destruct H as [H Hh]. constructor; [auto|].
  destruct l1; simpl in *; constructor. inversion Hh; auto.
Qed.

Lemma StronglySorted_app_in {A} (R : A -> A -> Prop) (l1 l2 : list A) a b :
  StronglySorted R (l1 ++ l2) -> In a l1 -> In b l2 -> R a b.
Proof.
  induction l1 as [|x l1 IH]; simpl; intros H Ha Hb; [destruct Ha|].
  apply StronglySorted_inv in H. destruct H as [H Hx].
  destruct Ha as [<-|Ha]; [|auto].
  rewrite Forall_forall in Hx. apply Hx, in_or_app. auto.
Qed.

Lemma created_le_trans : Transitive created_le.
Proof. intros a b c. unfold created_le. lia. Qed.

Lemma created_ge_trans : Transitive created_ge.
Proof. intros a b c. unfold created_ge. lia. Qed.

(** ** The sync engine *)

(** Claim C1: in every state the service reaches, every row has
    [retry_count <= MAX_RETRIES].  A pass attempts only rows of the table
    that are [pending] or [failed] with [retry_count < MAX_RETRIES]; an
    exhausted row ([failed], [retry_count = MAX_RETRIES]) is not attempted
    and stays in the table; and a row the pass marks failed comes out
    [failed] with its [retry_count] one higher and the error recorded. *)
Theorem retry_bound_and_exhaustion so st :
  sql_order_ok so -> reachable so st ->
  Forall (fun r => retry_count r <= MAX_RETRIES) (queue st) /\
  forall env cnt st' tr, processSyncQueue so env st = (cnt, st', tr) ->
    (forall x, In x (attempts tr) ->
       In x (queue st) /\ (status x = pending \/ status x = failed) /\
       retry_count x < MAX_RETRIES) /\
    (forall r, In r (queue st) -> status r = failed -> retry_count r = MAX_RETRIES ->
       ~ In (id r) (map id (attempts tr)) /\ In r (queue st')) /\
    (forall r msg, In r (queue st) -> In (MarkFailed (id r) msg) tr ->
       exists r', In r' (queue st') /\ id r' = id r /\ status r' = failed /\
         retry_count r' = S (retry_count r) /\ last_error r' = Some msg).
Proof.
  intros Hso Hreach.
  destruct (reachable_inv _ _ Hso Hreach) as (Hs & Hnd & Hf).
  split; [exact Hf|]. intros env cnt st' tr H.
  destruct (pass_run _ _ _ _ _ _ Hso Hnd Hs H) as (Hd & Hst & Hndc & Hc & _).
  split; [|split].
  - intros x Hx.
    destruct (pass_attempts_selected _ _ _ _ _ _ _ Hso Hnd Hs H Hx) as [Hq He].
    split; [exact Hq|]. split; [|apply eligible_retry; exact He].
    unfold eligible in He. apply andb_prop in He. destruct He as [He _].
    destruct (status x); simpl in He; try discriminate; auto.
  - intros r Hr Hfail Hmax.
    assert (Hno : outcome_of tr (id r) = None).
    { destruct (outcome_of tr (id r)) eqn:Ho; [|reflexivity]. exfalso.
      destruct (pass_outcome_attempted _ _ _ _ _ _ r Hso Hnd Hs H Hr) as [He _];
        [congruence|].
      apply eligible_retry in He. lia. }
    split.
    + intros Hi. apply in_map_iff in Hi. destruct Hi as (x & Hx & Hin).
      destruct (pass_attempts_selected _ _ _ _ _ _ _ Hso Hnd Hs H Hin) as [Hq He].
      rewrite (same_id_in _ _ _ Hnd Hq Hr Hx) in He.
      apply eligible_retry in He. lia.
    + rewrite Hst. simpl. apply prune_keeps_unsynced.
      * replace r with (apply_outcome tr r) at 1
          by (unfold apply_outcome; rewrite Hno; reflexivity).
        apply in_map. exact Hr.
      * unfold is_synced. rewrite Hfail. reflexivity.
  - intros r msg Hr Hm.
    pose proof (proj1 (drain_marks _ _ _ _ _ _ _ _ (id r) Hndc Hd) msg Hm) as Ho.
    assert (Ea : apply_outcome tr r = set_failed msg (set_status syncing r))
      by (unfold apply_outcome; rewrite Ho; reflexivity).
    exists (set_failed msg (set_status syncing r)).
    split; [|simpl; auto].
    rewrite Hst. simpl. apply prune_keeps_unsynced; [|reflexivity].
    rewrite <- Ea. apply in_map. exact Hr.
Qed.

(** Claim C2: while a pass holds the [isSyncing] latch, a call to
    [processSyncQueue] returns 0 at once, leaves the state (the table and
    the latch) as it is and does nothing else. *)
Theorem processSyncQueue_locked so env st :
  isSyncing st = true -> processSyncQueue so env st = (0, st, []).
Proof. intros Hs. unfold processSyncQueue. rewrite Hs. reflexivity. Qed.

(** Claim C3: a pass attempts rows in ascending [created_at] order, and
    when the connectivity check after the failure of the row created at
    [t1] reports the device offline, no row created later is attempted
    (marked [syncing]) or posted in that pass. *)
Theorem pass_order_offline_abort so env st cnt st' tr :
  sql_order_ok so -> NoDup (map id (queue st)) ->
  processSyncQueue so env st = (cnt, st', tr) ->
  Sorted created_le (attempts tr) /\
  forall r1 r2 ns,
    In r1 (queue st) -> In r2 (queue st) -> created_at r1 < created_at r2 ->
    In (NetCheck (id r1) ns) tr -> netinfo_connected ns = false ->
    ~ In (id r2) (map id (attempts tr)) /\ (forall u b, ~ In (Post (id r2) u b) tr).
Proof.
  intros Hso Hnd H.
  destruct (isSyncing st) eqn:Hs.
  - unfold processSyncQueue in H. rewrite Hs in H. inversion H; subst.
    split; [constructor|]. intros r1 r2 ns _ _ _ [].
  - destruct (pass_run _ _ _ _ _ _ Hso Hnd Hs H) as (Hd & _ & _ & _ & Hsort).
    destruct (drain_attempts_prefix _ _ _ _ _ _ _ _ Hd) as [rest Hp].
    rewrite Hp in Hsort. pose proof (Sorted_app_l _ _ _ Hsort) as Hsa.
    split; [exact Hsa|].
    intros r1 r2 ns Hr1 Hr2 Hlt Hin Hoff.
    assert (Hnot : ~ In (id r2) (map id (attempts tr))).
    { intros Hi. apply in_map_iff in Hi. destruct Hi as (y & Hy & Hyin).
      destruct (drain_offline_last _ _ _ _ _ _ _ _ _ _ Hd Hin Hoff) as (pre & x & Hpx & Hx).
      pose proof Hyin as Hyq. pose proof (in_or_app pre [x] x (or_intror (or_introl eq_refl))) as Hxin.
      rewrite <- Hpx in Hxin.
      destruct (pass_attempts_selected _ _ _ _ _ _ _ Hso Hnd Hs H Hyin) as [Hyq' _].
      destruct (pass_attempts_selected _ _ _ _ _ _ _ Hso Hnd Hs H Hxin) as [Hxq _].
      rewrite (same_id_in _ _ _ Hnd Hyq' Hr2 Hy) in Hyin.
      rewrite (same_id_in _ _ _ Hnd Hxq Hr1 Hx) in Hpx.
      rewrite Hpx in Hyin, Hsa. apply in_app_or in Hyin.
      destruct Hyin as [Hyin|[E|[]]].
      - apply Sorted_StronglySorted in Hsa; [|exact created_le_trans].
        pose proof (StronglySorted_app_in _ _ _ _ _ Hsa Hyin (or_introl eq_refl)) as Hle.
        unfold created_le in Hle. lia.
      - subst. lia. }
    split; [exact Hnot|].
    intros u b Hpost. apply Hnot.
    destruct (drain_post _ _ _ _ _ _ _ _ _ _ _ Hd Hpost) as (x & Hx & Hid & _).
    rewrite <- Hid. apply in_map. exact Hx.
Qed.

(** ** Pruning *)

Lemma filter_all_true {A} (g : A -> bool) (l : list A) :
  (forall x, In x l -> g x = true) -> filter g l = l.
Proof.
  induction l as [|x l IH]; simpl; intros H; [reflexivity|].
  rewrite (H x (or_introl eq_refl)). f_equal. auto.
Qed.

Lemma filter_all_false {A} (g : A -> bool) (l : list A) :
  (forall x, In x l -> g x = false) -> filter g l = [].
Proof.
  induction l as [|x l IH]; simpl; intros H; [reflexivity|].
  rewrite (H x (or_introl eq_refl)). auto.
Qed.

Lemma NoDup_app_disj {A} (l1 l2 : list A) a :
  NoDup (l1 ++ l2) -> In a l1 -> In a l2 -> False.
Proof.
  induction l1 as [|x l1 IH]; simpl; intros H H1 H2; [exact H1|].
  inversion H as [|? ? Hx Hl]; subst.
  destruct H1 as [<-|H1]; [apply Hx, in_or_app; auto | eauto].
Qed.

Lemma filter_synced_keep (k : list string) (l : list row) :
  filter is_synced (filter (fun r => negb (is_synced r && negb (existsb (String.eqb (id r)) k))) l)
  = filter (fun r => existsb (String.eqb (id r)) k) (filter is_synced l).
Proof.
  induction l as [|x l IH]; [reflexivity|]. simpl.
  destruct (is_synced x) eqn:Ex; simpl.
  - destruct (existsb (String.eqb (id x)) k) eqn:Ek; simpl; rewrite ?Ex, ?IH; reflexivity.
  - rewrite Ex. exact IH.
Qed.

Section Prune.
Variable so : SqlOrder.
Hypothesis Hso : sql_order_ok so.
Variable q : list row.
Hypothesis Hnd : NoDup (map id q).

Local Abbreviation Synced := (filter is_synced q).
Local Abbreviation Desc := (order_created_desc so (filter is_synced q)).
Local Abbreviation Top := (firstn 100 (order_created_desc so (filter is_synced q))).
Local Abbreviation keep := (map id (firstn 100 (order_created_desc so (filter is_synced q)))).

Lemma prune_D_perm : Permutation Desc Synced.
Proof. apply (Hso Synced). Qed.

Lemma prune_D_sorted : StronglySorted created_ge Desc.
Proof. apply Sorted_StronglySorted; [exact created_ge_trans | apply (Hso Synced)]. Qed.

Lemma prune_D_nodup : NoDup (map id Desc).
Proof.
  eapply Permutation_NoDup; [apply Permutation_map; symmetry; apply prune_D_perm|].
  apply NoDup_map_filter. exact Hnd.
Qed.

Lemma prune_D_in x : In x Desc <-> In x q /\ is_synced x = true.
Proof.
  rewrite <- filter_In. split; intros H.
  - eapply Permutation_in; [apply prune_D_perm | exact H].
  - eapply Permutation_in; [symmetry; apply prune_D_perm | exact H].
Qed.
Lemma existsb_eqb_in i (l : list string) : existsb (String.eqb i) l = true <-> In i l.
Proof.
  rewrite existsb_exists. split.
  - intros (j & Hj & E). apply String.eqb_eq in E. subst. exact Hj.
  - intros H. exists i. split; [exact H | apply String.eqb_refl].
Qed.

Lemma prune_in r : In r (prune so q) <-> In r q /\ (is_synced r = false \/ In (id r) keep).
Proof.
  unfold prune. rewrite filter_In.
  rewrite <- existsb_eqb_in.
  destruct (is_synced r), (existsb (String.eqb (id r)) keep); simpl; intuition congruence.
Qed.

Lemma prune_synced_in r :
  In r q -> is_synced r = true -> (In r (prune so q) <-> In r Top).
Proof.
  intros Hr Hs. rewrite prune_in. split.
  - intros [_ [H|H]]; [congruence|].
    unfold keep in H. apply in_map_iff in H. destruct H as (x & Hx & Hin).
    assert (HxD : In x Desc)
      by (rewrite <- (firstn_skipn 100 Desc); apply in_or_app; left; exact Hin).
    apply prune_D_in in HxD. destruct HxD as [Hxq _].
    rewrite (same_id_in _ _ _ Hnd Hxq Hr Hx) in Hin. exact Hin.
  - intros H. split; [exact Hr|]. right. apply in_map. exact H.
Qed.

Lemma prune_synced_filter :
  filter is_synced (prune so q) = filter (fun r => existsb (String.eqb (id r)) keep) Synced.
Proof.
  unfold prune. apply filter_synced_keep.
Qed.

Lemma prune_count :
  length (filter is_synced (prune so q)) = Nat.min 100 (length (filter is_synced q)).
Proof.
  rewrite prune_synced_filter.
  pose proof prune_D_perm as HP. pose proof prune_D_nodup as Hn.
  set (k := keep). set (D := Desc) in *.
  assert (Hp : Permutation (filter (fun r => existsb (String.eqb (id r)) k) Synced)
                           (filter (fun r => existsb (String.eqb (id r)) k) D))
    by (apply perm_filter; symmetry; exact HP).
  rewrite (Permutation_length Hp).
  pose proof (firstn_skipn 100 D) as Hsplit.
  rewrite <- Hsplit, filter_app.
  rewrite (filter_all_true _ (firstn 100 D))
    by (intros x Hx; unfold k; apply existsb_eqb_in, in_map, Hx).
  rewrite (filter_all_false _ (skipn 100 D)).
  - rewrite app_nil_r, length_firstn, (Permutation_length HP). reflexivity.
  - intros x Hx. destruct (existsb _ k) eqn:E; [|reflexivity]. exfalso.
    apply existsb_eqb_in in E.
    unfold k in E. apply in_map_iff in E. destruct E as (y & Hy & Hyin).
    rewrite <- Hsplit in Hn.
    assert (HyD : In y (firstn 100 D ++ skipn 100 D)) by (apply in_or_app; auto).
    assert (HxD : In x (firstn 100 D ++ skipn 100 D)) by (apply in_or_app; auto).
    pose proof (same_id_in _ _ _ Hn HyD HxD Hy) as <-.
    rewrite map_app in Hn. apply (NoDup_app_disj _ _ (id y) Hn); apply in_map; assumption.
Qed.

Lemma prune_recent r k :
  In r (prune so q) -> is_synced r = true -> In k q -> is_synced k = true ->
  ~ In k (prune so q) -> created_at k <= created_at r.
Proof.
  intros Hr Hsr Hk Hsk Hnk.
  pose proof (proj1 (prune_in r) Hr) as [Hrq _].
  apply (prune_synced_in r Hrq Hsr) in Hr.
  assert (HkF : ~ In k Top) by (intros H; apply Hnk, (prune_synced_in k Hk Hsk), H).
  assert (HkD : In k Desc) by (apply prune_D_in; auto).
  pose proof (firstn_skipn 100 Desc) as Hsplit.
  rewrite <- Hsplit in HkD. apply in_app_or in HkD. destruct HkD as [HkD|HkD]; [contradiction|].
  pose proof prune_D_sorted as Hss. rewrite <- Hsplit in Hss.
  exact (StronglySorted_app_in _ _ _ _ _ Hss Hr HkD).
Qed.
End Prune.

(** Claim C7: after a pass, with [q'] the table as the loop left it, the
    table is [prune so q']: it holds at most 100 [synced] rows (the least of
    100 and the number [q'] had), it only removes rows, every row that is
    not [synced] (pending, failed, exhausted or syncing) is kept, and every
    [synced] row kept was created no earlier than any [synced] row
    removed. *)
Theorem prune_after_pass so env st cnt st' tr :
  sql_order_ok so -> NoDup (map id (queue st)) -> isSyncing st = false ->
  processSyncQueue so env st = (cnt, st', tr) ->
  let q' := map (apply_outcome tr) (queue st) in
  queue st' = prune so q' /\
  length (filter is_synced (queue st')) <= 100 /\
  length (filter is_synced (queue st')) = Nat.min 100 (length (filter is_synced q')) /\
  (forall r, In r (queue st') -> In r q') /\
  (forall r, In r q' -> is_synced r = false -> In r (queue st')) /\
  (forall r k, In r (queue st') -> is_synced r = true ->
     In k q' -> is_synced k = true -> ~ In k (queue st') ->
     created_at k <= created_at r).
Proof.
  intros Hso Hnd Hs H q'.
  destruct (pass_run _ _ _ _ _ _ Hso Hnd Hs H) as (_ & -> & _). simpl. fold q'.
  assert (Hnd' : NoDup (map id q')) by (unfold q'; rewrite map_id_apply_outcome; exact Hnd).
  pose proof (prune_count so Hso q' Hnd') as Hc.
  split; [reflexivity|]. split; [rewrite Hc; lia|]. split; [exact Hc|].
  split; [intros r; apply prune_subset|].
  split; [intros r Hr Hr'; apply prune_keeps_unsynced; assumption|].
  intros r k. apply prune_recent; assumption.
Qed.

(** ** Deliveries *)

Lemma nodupb_sound l : nodupb l = true -> NoDup l.
Proof.
  induction l as [|x l IH]; simpl; intros H; [constructor|].
  apply andb_prop in H. destruct H as [Hx Hl]. constructor; [|auto].
  intros Hin. apply negb_true_iff in Hx.
  assert (existsb (String.eqb x) l = true) by (apply existsb_eqb_in; exact Hin).
  congruence.
Qed.

Lemma json_parse_payload v :
  json_wf v -> json_parse (list_ascii_of_string (string_of_list_ascii (stringify v))) = Some v.
Proof.
  intros Hv. rewrite list_ascii_of_string_of_list_ascii. apply json_parse_stringify. exact Hv.
Qed.

Lemma attempt_ok env m x v :
  json_parse (list_ascii_of_string (payload x)) = Some v ->
  (forall n u b, exists code text, fetch_result env n u b = Response true code text) ->
  snd (attempt env m x) = None.
Proof.
  intros Hp Hok. unfold attempt. rewrite Hp. unfold sendToBackend.
  destruct (endpoint_sync_type_some (type x)) as [ep ->].
  destruct (Hok m (baseUrl ++ ep)%string (stringify v)) as (code & text & Hf).
  cbv beta zeta. rewrite Hf. reflexivity.
Qed.

(** Claim C9, as the code has it: when the table holds only [N] pending
    rows with well-formed payloads and every delivery succeeds, the pass
    returns [N] and leaves no row pending or failed, but pruning leaves
    only [min N 100] rows [synced]. *)
Theorem drain_all_delivered so env st cnt st' tr :
  sql_order_ok so -> NoDup (map id (queue st)) -> isSyncing st = false ->
  Forall (fun r => status r = pending /\ retry_count r < MAX_RETRIES /\
            exists v, json_wf v /\ payload r = string_of_list_ascii (stringify v)) (queue st) ->
  (forall n u b, exists code text, fetch_result env n u b = Response true code text) ->
  processSyncQueue so env st = (cnt, st', tr) ->
  cnt = length (queue st) /\ getPendingCount (queue st') = 0 /\
  length (filter is_synced (queue st')) = Nat.min 100 (length (queue st)).
Proof.
  intros Hso Hnd Hs Hall Hok H.
  rewrite Forall_forall in Hall.
  destruct (pass_run _ _ _ _ _ _ Hso Hnd Hs H) as (Hd & -> & _ & Hc & _).
  assert (Hok' : forall m x, In x (candidates so (queue st)) -> snd (attempt env m x) = None).
  { intros m x Hx. apply Hc in Hx. destruct Hx as [Hx _].
    destruct (Hall x Hx) as (_ & _ & v & Hv & Hp).
    apply (attempt_ok _ _ _ v); [rewrite Hp; apply json_parse_payload; exact Hv | exact Hok]. }
  destruct (drain_all_ok _ _ _ _ _ _ _ _ Hok' Hd) as (Hcnt & _ & Hout).
  assert (Hsync : forall r, In r (map (apply_outcome tr) (queue st)) -> is_synced r = true).
  { intros r Hr. apply in_map_iff in Hr. destruct Hr as (x & <- & Hx).
    assert (Hxc : In x (candidates so (queue st))).
    { apply Hc. split; [exact Hx|]. destruct (Hall x Hx) as (Hst & Hrt & _).
      unfold eligible. rewrite Hst. simpl. apply Nat.ltb_lt. exact Hrt. }
    unfold apply_outcome. rewrite (Hout x Hxc). reflexivity. }
  assert (Hlen : length (candidates so (queue st)) = length (queue st)).
  { destruct (Hso (filter eligible (queue st))) as (Hp & _).
    unfold candidates. rewrite (Permutation_length Hp).
    rewrite filter_all_true; [reflexivity|].
    intros x Hx. destruct (Hall x Hx) as (Hst & Hrt & _).
    unfold eligible. rewrite Hst. simpl. apply Nat.ltb_lt. exact Hrt. }
  simpl. split; [lia|]. split.
  - unfold getPendingCount. rewrite filter_all_false; [reflexivity|].
    intros x Hx. apply prune_subset, Hsync in Hx. unfold is_synced in Hx.
    destruct (status x); simpl in *; congruence.
  - rewrite prune_count; [| exact Hso | rewrite map_id_apply_outcome; exact Hnd].
    rewrite filter_all_true by exact Hsync. rewrite length_map. reflexivity.
Qed.

(** Claim C10: for a row whose payload is what [enqueue] stored for a
    well-formed JSON value [v], every request the pass posts for it has
    [JSON.stringify(v)] as body and the endpoint of its type as URL, and
    the row is posted with that body whenever it is attempted. *)
Theorem payload_round_trip so env st cnt st' tr r v :
  sql_order_ok so -> NoDup (map id (queue st)) ->
  processSyncQueue so env st = (cnt, st', tr) ->
  In r (queue st) -> payload r = string_of_list_ascii (stringify v) -> json_wf v ->
  (forall u b, In (Post (id r) u b) tr ->
     b = stringify v /\
     exists ep, endpoints (sync_type_name (type r)) = Some ep /\ u = (baseUrl ++ ep)%string) /\
  (In r (attempts tr) -> exists u, In (Post (id r) u (stringify v)) tr).
Proof.
  intros Hso Hnd H Hr Hp Hv.
  destruct (isSyncing st) eqn:Hs.
  - unfold processSyncQueue in H. rewrite Hs in H. inversion H; subst.
    split; [intros u b []| intros []].
  - destruct (pass_run _ _ _ _ _ _ Hso Hnd Hs H) as (Hd & _).
    split.
    + intros u b Hpost.
      destruct (drain_post _ _ _ _ _ _ _ _ _ _ _ Hd Hpost)
        as (x & Hx & Hid & v' & ep & Hpx & He & -> & ->).
      destruct (pass_attempts_selected _ _ _ _ _ _ _ Hso Hnd Hs H Hx) as [Hxq _].
      rewrite (same_id_in _ _ _ Hnd Hxq Hr Hid) in Hpx, He.
      rewrite Hp, json_parse_payload in Hpx by exact Hv. inversion Hpx; subst.
      split; [reflexivity|]. exists ep. auto.
    + intros Hat. apply (drain_attempted_posted _ _ _ _ _ _ _ _ _ _ Hd Hat).
      rewrite Hp. apply json_parse_payload. exact Hv.
Qed.

(** ** [enqueue] *)

(** Claim C8: [enqueue]'s result and the table it leaves do not depend on
    what [NetInfo.fetch()] reports; with the store up and a fresh id it
    appends one [pending] row with [retry_count = 0] and resolves to its
    id; it rejects only when the store is down or the id is taken; and it
    starts a drain (without waiting for it) exactly when the write
    succeeded and the device is online. *)
Theorem enqueue_outcome store_up q t p i now ns ns' :
  enq_result (enqueue store_up q t p i now ns) = enq_result (enqueue store_up q t p i now ns') /\
  enq_queue (enqueue store_up q t p i now ns) = enq_queue (enqueue store_up q t p i now ns') /\
  (store_up = true -> ~ In i (map id q) ->
     enq_result (enqueue store_up q t p i now ns) = Ok i /\
     enq_queue (enqueue store_up q t p i now ns) = q ++ [new_item i t p now] /\
     status (new_item i t p now) = pending /\ retry_count (new_item i t p now) = 0 /\
     id (new_item i t p now) = i) /\
  (forall e, enq_result (enqueue store_up q t p i now ns) = Err e ->
     store_up = false \/ In i (map id q)) /\
  drain_triggered (enqueue store_up q t p i now ns) =
    store_up && negb (existsb (fun r => String.eqb (id r) i) q) && netinfo_online ns.
Proof.
  unfold enqueue, insert_row. cbn [new_item id].
  destruct store_up; simpl.
  - destruct (existsb _ q) eqn:E; simpl.
    + split; [reflexivity|]. split; [reflexivity|]. split.
      * intros _ Hi. exfalso. apply Hi. apply existsb_exists in E.
        destruct E as (r & Hr & Er). apply String.eqb_eq in Er. subst. apply in_map. exact Hr.
      * split; [|reflexivity]. intros e _. right.
        apply existsb_exists in E. destruct E as (r & Hr & Er).
        apply String.eqb_eq in Er. subst. apply in_map. exact Hr.
    + repeat split; intros; try discriminate; auto.
  - repeat split; intros; try discriminate; auto.
Qed.

(** ** Calls *)

Lemma call_logs_fresh_append c (l : list CallLogs.row) :
  ~ In c (map CallLogs.id l) ->
  existsb (fun r => String.eqb (CallLogs.id r) c) l = false.
Proof.
  intros H. destruct (existsb _ l) eqn:E; [|reflexivity]. exfalso. apply H.
  apply existsb_exists in E. destruct E as (r & Hr & Er). apply String.eqb_eq in Er.
  subst. apply in_map. exact Hr.
Qed.

Lemma queue_fresh (q : list row) i :
  ~ In i (map id q) -> existsb (fun r => String.eqb (id r) i) q = false.
Proof.
  intros H. destruct (existsb _ q) eqn:E; [|reflexivity]. exfalso. apply H.
  apply existsb_exists in E. destruct E as (r & Hr & Er). apply String.eqb_eq in Er.
  subst. apply in_map. exact Hr.
Qed.

Lemma alert_exists_in d a : In a (alerts d) -> alert_exists d a = true.
Proof. intros H. apply existsb_exists. exists a. split; [exact H | apply String.eqb_refl]. Qed.


(** The foreign key check of [persistCallLog]'s insert passes. *)
Lemma call_alert_fk (d : Database) (alertId : option string) :
  (forall a, alertId = Some a -> In a (alerts d)) ->
  negb (match alertId with Some a => alert_exists d a | None => true end) = false.
Proof.
  intros H. destruct alertId as [a|]; [|reflexivity].
  rewrite (alert_exists_in _ _ (H a eq_refl)). reflexivity.
Qed.

Lemma updateCallStatus_row c st w r :
  In r (call_logs (db (updateCallStatus c st w))) -> CallLogs.id r = c -> CallLogs.status r = st.
Proof.
  simpl. intros Hr Hc. apply in_map_iff in Hr. destruct Hr as (x & <- & Hx).
  destruct (String.eqb_spec (CallLogs.id x) c) as [E|E]; [reflexivity|].
  congruence.
Qed.

(** Claim C5: for a call whose row is inserted (a fresh id, and an
    [alertId] that is null or names an alert), when the call cannot be
    placed ([connect] throws) or the voice backend reports
    [connectFailure] for the call it placed, the call's row ends [failed]
    and the sync queue is the one before the call. *)
Theorem connect_failure_marks_failed iso number alertId c now w :
  ~ In c (map CallLogs.id (call_logs (db w))) ->
  (forall a, alertId = Some a -> In a (alerts (db w))) ->
  (forall msg,
     let w' := snd (makeHotlineCall iso number alertId c now (ConnectThrows msg) w) in
     fst (makeHotlineCall iso number alertId c now (ConnectThrows msg) w) = Ok c /\
     (exists r, In r (call_logs (db w')) /\ CallLogs.id r = c) /\
     (forall r, In r (call_logs (db w')) -> CallLogs.id r = c -> CallLogs.status r = CallLogs.failed) /\
     sync_queue (db w') = sync_queue (db w)) /\
  (forall sid,
     let w' := on_call_event iso c EvConnectFailure
                 (snd (makeHotlineCall iso number alertId c now (ConnectReturns sid) w)) in
     fst (makeHotlineCall iso number alertId c now (ConnectReturns sid) w) = Ok c /\
     (exists r, In r (call_logs (db w')) /\ CallLogs.id r = c) /\
     (forall r, In r (call_logs (db w')) -> CallLogs.id r = c -> CallLogs.status r = CallLogs.failed) /\
     sync_queue (db w') = sync_queue (db w)).
Proof.
  intros Hc Ha. split; intros x; cbv zeta; unfold makeHotlineCall;
    rewrite (call_logs_fresh_append _ _ Hc), (call_alert_fk _ _ Ha); (split; [reflexivity|]);
    (split; [| split; [apply updateCallStatus_row | reflexivity]]);
    cbn [on_call_event snd updateCallStatus db call_logs with_call_logs];
    eexists; (split; [apply in_map, in_or_app; right; left; reflexivity |]);
    simpl; rewrite String.eqb_refl; reflexivity.
Qed.

Lemma handleCallEnd_queue iso c now i ns w :
  ~ In i (map id (sync_queue (db w))) ->
  sync_queue (db (handleCallEnd iso c now i ns w)) =
    sync_queue (db w) ++
    [new_item i call_log
       (JObj [("callId", JStr c); ("endedAt", JStr (iso now));
              ("durationSeconds", match callStartTime (calls w) with
                                  | Some t => json_of_Z (round_seconds (now - t))
                                  | None => JNull end)])
       (Z.to_nat (now / 1000))] /\
  calls (handleCallEnd iso c now i ns w) = mkCallServiceState None None None.
Proof.
  intros Hi. unfold handleCallEnd, enqueue, insert_row. cbn [new_item id negb].
  rewrite (queue_fresh _ _ Hi). cbn.
  destruct (callStartTime (calls w)); split; reflexivity.
Qed.

Lemma handleCallEnd_row iso c now i ns w r :
  In r (call_logs (db (handleCallEnd iso c now i ns w))) -> CallLogs.id r = c ->
  CallLogs.status r = CallLogs.disconnected /\ CallLogs.ended_at r = Some (iso now) /\
  CallLogs.duration_seconds r =
    match callStartTime (calls w) with Some t => Some (round_seconds (now - t)) | None => None end.
Proof.
  unfold handleCallEnd.
  destruct (enq_result _); simpl; intros Hr Hc;
    apply in_map_iff in Hr; destruct Hr as (x & <- & Hx);
    (destruct (String.eqb_spec (CallLogs.id x) c) as [E|E]; [|congruence]);
    simpl; auto.
Qed.

(** Claim C4, against the code: the [disconnected] listener that
    [makeHotlineCall] registers calls [handleCallEnd(callId)] with no guard
    (unlike [endCall], which checks [activeCallId]), and [handleCallEnd]
    does not look at the row's status, so a second [disconnected] event
    for a call already ended is not a no-op.  After the first event the
    row is [disconnected] and the service's fields are cleared; the
    redundant event rewrites the row with the new end time and a null
    duration (erasing the one recorded) and enqueues one more [call_log]
    item, whose [durationSeconds] is null.  Hanging up with [endCall]
    while the call is active leaves the same state as a first
    [disconnected] event, so the [disconnected] event that
    [activeCall.disconnect()] then delivers is such a redundant event. *)
Theorem redundant_disconnect_rewrites iso c t1 t2 i1 i2 ns1 ns2 w :
  ~ In i1 (map id (sync_queue (db w))) -> ~ In i2 (map id (sync_queue (db w))) -> i1 <> i2 ->
  let w1 := on_call_event iso c (EvDisconnected t1 i1 ns1) w in
  let w2 := on_call_event iso c (EvDisconnected t2 i2 ns2) w1 in
  (activeCallId (calls w) = Some c -> c <> ""%string -> endCall iso t1 i1 ns1 w = w1) /\
  calls w1 = mkCallServiceState None None None /\
  (forall r, In r (call_logs (db w1)) -> CallLogs.id r = c ->
     CallLogs.status r = CallLogs.disconnected /\ CallLogs.ended_at r = Some (iso t1)) /\
  (forall r, In r (call_logs (db w2)) -> CallLogs.id r = c ->
     CallLogs.status r = CallLogs.disconnected /\ CallLogs.ended_at r = Some (iso t2) /\
     CallLogs.duration_seconds r = None) /\
  sync_queue (db w2) =
    sync_queue (db w1) ++
    [new_item i2 call_log
       (JObj [("callId", JStr c); ("endedAt", JStr (iso t2)); ("durationSeconds", JNull)])
       (Z.to_nat (t2 / 1000))].
Proof.
  intros H1 H2 H12 w1 w2. subst w1 w2. cbn [on_call_event].
  destruct (handleCallEnd_queue iso c t1 i1 ns1 w H1) as [Hq1 Hc1].
  assert (H2' : ~ In i2 (map id (sync_queue (db (handleCallEnd iso c t1 i1 ns1 w))))).
  { rewrite Hq1, map_app. intros Hin. apply in_app_or in Hin.
    destruct Hin as [Hin|[E|[]]]; [contradiction | simpl in E; congruence]. }
  destruct (handleCallEnd_queue iso c t2 i2 ns2 _ H2') as [Hq2 _].
  split.
  { intros Ha Hne. unfold endCall. rewrite Ha.
    replace (String.eqb c "") with false by (symmetry; apply String.eqb_neq; exact Hne).
    reflexivity. }
  split; [exact Hc1|]. split.
  - intros r Hr Hc. destruct (handleCallEnd_row _ _ _ _ _ _ _ Hr Hc) as (? & ? & _). auto.
  - split.
    + intros r Hr Hc. destruct (handleCallEnd_row _ _ _ _ _ _ _ Hr Hc) as (? & ? & Hd).
      rewrite Hc1 in Hd. auto.
    + rewrite Hq2, Hc1. reflexivity.
Qed.

(** ** Responses *)

(** When [submitResponse] resolves: the store is up, the response id is
    free, the alert exists and the queue id is free; the location lookups
    play no part. *)
Lemma submit_ok_iff iso su alertId userId rt cur last rid now qid ns d :
  (exists resp, fst (submitResponse iso su alertId userId rt cur last rid now qid ns d) = Ok resp) <->
  (su = true /\
   existsb (fun r => String.eqb (UserResponses.id r) rid) (user_responses d) = false /\
   alert_exists d alertId = true /\
   existsb (fun r => String.eqb (id r) qid) (sync_queue d) = false).
Proof.
  unfold submitResponse, enqueue, insert_row.
  destruct su; cbn [negb]; [|split; [intros (? & H); discriminate | intros (H & _); discriminate]].
  destruct (existsb _ (user_responses d)); cbn [negb];
    [split; [intros (? & H); discriminate | intros (_ & H & _); discriminate]|].
  destruct (alert_exists d alertId); cbn [negb];
    [|split; [intros (? & H); discriminate | intros (_ & _ & H & _); discriminate]].
  cbn [sync_queue new_item id].
  destruct (existsb _ (sync_queue d)); cbn;
    [split; [intros (? & H); discriminate | intros (_ & _ & _ & H); discriminate]|].
  split; [intros _; auto | intros _; eexists; reflexivity].
Qed.

(** Claim C6: when both location lookups fail (the current fix errors and
    the last known position is missing or errors), whether [submitResponse]
    resolves does not depend on the location: it resolves exactly when it
    would with any other location outcome (what can make it reject is the
    store, a taken id, or an [alertId] no alert has, which the foreign key
    refuses).  For an alert that exists, with the store up and fresh ids,
    it resolves to the response, with null latitude and longitude, appends
    it to [user_responses] and appends a [user_response] item to the sync
    queue. *)
Theorem submit_without_location iso alertId userId rt msg last rid now qid ns d :
  (last = LastKnownNull \/ exists m, last = LastKnownError m) ->
  (forall su cur' last',
     (exists resp, fst (submitResponse iso su alertId userId rt (CurrentError msg) last rid now qid ns d) = Ok resp) <->
     (exists resp, fst (submitResponse iso su alertId userId rt cur' last' rid now qid ns d) = Ok resp)) /\
  (In alertId (alerts d) ->
   ~ In rid (map UserResponses.id (user_responses d)) ->
   ~ In qid (map id (sync_queue d)) ->
   exists resp,
    submitResponse iso true alertId userId rt (CurrentError msg) last rid now qid ns d =
      (Ok resp,
       mkDatabase (call_logs d) (user_responses d ++ [resp])
         (sync_queue d ++ [new_item qid user_response (response_payload resp) (Z.to_nat (now / 1000))])
         (alerts d)) /\
    UserResponses.latitude resp = None /\ UserResponses.longitude resp = None /\
    UserResponses.locationAccuracy resp = None /\
    UserResponses.id resp = rid /\ UserResponses.alertId resp = alertId /\
    UserResponses.userId resp = userId /\ UserResponses.response resp = rt).
Proof.
  intros Hlast. split.
  { intros su cur' last'. rewrite !submit_ok_iff. reflexivity. }
  intros Ha Hrid Hqid.
  assert (Hloc : captureLocation iso (CurrentError msg) last = None)
    by (destruct Hlast as [->|[m ->]]; reflexivity).
  unfold submitResponse. rewrite Hloc. simpl negb. cbv iota.
  assert (Hr : existsb (fun r => String.eqb (UserResponses.id r) rid) (user_responses d) = false).
  { destruct (existsb _ _) eqn:E; [|reflexivity]. exfalso. apply Hrid.
    apply existsb_exists in E. destruct E as (r & Hr & Er). apply String.eqb_eq in Er.
    subst. apply in_map. exact Hr. }
  rewrite Hr, (alert_exists_in _ _ Ha). unfold enqueue, insert_row.
  cbn [negb sync_queue new_item id].
  rewrite (queue_fresh _ _ Hqid).
  eexists. split; [reflexivity|]. repeat split.
Qed.

(** ** Further properties of the sync engine *)

Lemma candidates_nil so q :
  sql_order_ok so -> (forall r, In r q -> eligible r = false) -> candidates so q = [].
Proof.
  intros Hso H. unfold candidates. rewrite (filter_all_false _ _ H).
  destruct (Hso []) as (Hp & _). apply Permutation_nil. symmetry. exact Hp.
Qed.

Lemma prune_small so q :
  sql_order_ok so -> length (filter is_synced q) <= 100 -> prune so q = q.
Proof.
  intros Hso Hlen. destruct (Hso (filter is_synced q)) as (_ & _ & Hp & _).
  unfold prune. apply filter_all_true. intros r Hr.
  destruct (is_synced r) eqn:Es; [|reflexivity].
  rewrite firstn_all2 by (rewrite (Permutation_length Hp); exact Hlen).
  assert (Hin : In (id r) (map id (order_created_desc so (filter is_synced q)))).
  { apply in_map. eapply Permutation_in; [symmetry; exact Hp|]. apply filter_In. auto. }
  apply existsb_eqb_in in Hin. rewrite Hin. reflexivity.
Qed.

(** The table of a reachable state has no [syncing] row and at most 100
    [synced] rows. *)
Lemma reachable_table so st :
  sql_order_ok so -> reachable so st ->
  (forall r, In r (queue st) -> status r <> syncing) /\
  length (filter is_synced (queue st)) <= 100.
Proof.
  intros Hso Hr. induction Hr as [| st store_up t p i now ns Hr IH | st env Hr IH].
  - simpl. split; [intros r []| lia].
  - destruct IH as [Hs Hc]. simpl.
    destruct (enqueue_queue store_up (queue st) t p i now ns) as [-> | (_ & _ & ->)];
      [auto|]. split.
    + intros r Hin. apply in_app_or in Hin.
      destruct Hin as [Hin|[<-|[]]]; [auto | simpl; discriminate].
    + rewrite filter_app. simpl. rewrite app_nil_r. exact Hc.
  - destruct IH as [Hs Hc].
    destruct (reachable_inv _ _ Hso Hr) as (Hl & Hnd & _).
    destruct (processSyncQueue so env st) as [[cnt st'] tr] eqn:H. simpl.
    destruct (pass_run _ _ _ _ _ _ Hso Hnd Hl H) as (_ & -> & _). simpl. split.
    + intros r' Hr'. apply prune_subset in Hr'. apply in_map_iff in Hr'.
      destruct Hr' as (r & <- & Hr0).
      destruct (apply_outcome_cases tr r) as [(_ & ->) | [(_ & ->) | (m & _ & ->)]];
        [auto | simpl; discriminate | simpl; discriminate].
    + rewrite (prune_count so Hso); [lia|]. rewrite map_id_apply_outcome. exact Hnd.
Qed.

Lemma filter_filter_in {A} (f g : A -> bool) (l : list A) :
  (forall x, In x l -> f x = true -> g x = true) -> filter f (filter g l) = filter f l.
Proof.
  induction l as [|x l IH]; simpl; intros H; [reflexivity|].
  assert (IH' := IH (fun y Hy => H y (or_intror Hy))).
  destruct (g x) eqn:Eg; simpl; destruct (f x) eqn:Ef; try congruence.
  rewrite (H x (or_introl eq_refl) Ef) in Eg. discriminate.
Qed.

(** What a drain returns: one more than it started with for each row it
    marked synced. *)
Lemma drain_count_rows env n items q cnt c q' tr :
  NoDup (map id items) ->
  drain_loop env n items q cnt = (c, q', tr) ->
  c = cnt + length (filter (fun x => match outcome_of tr (id x) with
                                     | Some None => true | _ => false end) items).
Proof.
  revert n q cnt c q' tr.
  induction items as [|item rest IH]; intros n q cnt c q' tr Hnd H.
  - inversion H; subst. simpl. lia.
  - simpl in Hnd. inversion Hnd as [|? ? Hni Hnd']; subst.
    loop_step H; destruct (attempt_events _ _ _ _ _ Ha) as [_ Hou]; cbn [filter].
    + erewrite (filter_ext_in _ (fun x => match outcome_of tr1 (id x) with
                                          | Some None => true | _ => false end) rest)
        by (intros x Hin; cbn beta; cbn [outcome_of]; rewrite Hou; cbn [outcome_of];
            destruct (String.eqb_spec (id item) (id x)) as [E|E];
            [exfalso; apply Hni; rewrite E; apply in_map; exact Hin | reflexivity]).
      cbn [outcome_of]. rewrite Hou. cbn [outcome_of]. rewrite String.eqb_refl.
      exact (IH _ _ _ _ _ _ Hnd' Hr).
    + cbn [outcome_of]. rewrite Hou. cbn [outcome_of]. rewrite String.eqb_refl.
      rewrite filter_all_false; [simpl; lia|].
      intros x Hin. cbn beta. cbn [outcome_of]. rewrite Hou. cbn [outcome_of].
      destruct (String.eqb (id item) (id x)); reflexivity.
    + erewrite (filter_ext_in _ (fun x => match outcome_of tr1 (id x) with
                                          | Some None => true | _ => false end) rest)
        by (intros x Hin; cbn beta; cbn [outcome_of]; rewrite Hou; cbn [outcome_of];
            destruct (String.eqb_spec (id item) (id x)) as [E|E];
            [exfalso; apply Hni; rewrite E; apply in_map; exact Hin | reflexivity]).
      cbn [outcome_of]. rewrite Hou. cbn [outcome_of]. rewrite String.eqb_refl.
      rewrite (IH _ _ _ _ _ _ Hnd' Hr). simpl. lia.
Qed.

(** The same count, read off the events. *)
Lemma drain_count_events env n items q cnt c q' tr :
  drain_loop env n items q cnt = (c, q', tr) ->
  c = cnt + length (filter (fun e => match e with MarkSynced _ => true | _ => false end) tr).
Proof.
  revert n q cnt c q' tr.
  induction items as [|item rest IH]; intros n q cnt c q' tr H.
  - inversion H; subst. simpl. lia.
  - loop_step H;
      destruct (attempt_shape _ _ _ _ _ Ha) as [(_ & -> & _) | (v & ep & _ & _ & ->)];
      simpl; try rewrite (IH _ _ _ _ _ _ Hr); simpl; lia.
Qed.

Lemma pending_count_prune so q : getPendingCount (prune so q) = getPendingCount q.
Proof.
  unfold getPendingCount, prune. f_equal. apply filter_filter_in.
  intros x _ Hx. unfold is_synced.
  destruct (status x); simpl in *; try discriminate; reflexivity.
Qed.

Lemma pending_count_apply tr q :
  (forall r, In r q -> outcome_of tr (id r) <> None ->
     (SyncStatus_eqb (status r) pending || SyncStatus_eqb (status r) failed) = true) ->
  getPendingCount (map (apply_outcome tr) q) +
  length (filter (fun x => match outcome_of tr (id x) with
                           | Some None => true | _ => false end) q) = getPendingCount q.
Proof.
  unfold getPendingCount.
  set (P := fun r => SyncStatus_eqb (status r) pending || SyncStatus_eqb (status r) failed).
  set (f := fun x => match outcome_of tr (id x) with Some None => true | _ => false end).
  induction q as [|r q IH]; intros H; [reflexivity|].
  assert (IH' := IH (fun x Hx => H x (or_intror Hx))).
  cbn [map filter].
  assert (Hf : f r = match outcome_of tr (id r) with Some None => true | _ => false end)
    by reflexivity.
  destruct (apply_outcome_cases tr r) as [(Ho & ->) | [(Ho & ->) | (m & Ho & ->)]];
    rewrite Hf, Ho.
  - destruct (P r); cbn [length]; lia.
  - assert (Hp : P r = true) by (apply H; [left; reflexivity | congruence]).
    assert (Hn : P (set_synced (set_status syncing r)) = false) by reflexivity.
    rewrite Hp, Hn. cbn [length]. lia.
  - assert (Hp : P r = true) by (apply H; [left; reflexivity | congruence]).
    assert (Hn : P (set_failed m (set_status syncing r)) = true) by reflexivity.
    rewrite Hp, Hn. cbn [length]. lia.
Qed.

(** The drain, when the device stays connected, attempts every row it
    selected. *)
Lemma drain_connected env n items q cnt c q' tr :
  (forall m, netinfo_connected (netinfo_after env m) = true) ->
  drain_loop env n items q cnt = (c, q', tr) -> attempts tr = items.
Proof.
  revert n q cnt c q' tr.
  induction items as [|item rest IH]; intros n q cnt c q' tr Hcon H.
  - inversion H; subst. reflexivity.
  - loop_step H; destruct (attempt_events _ _ _ _ _ Ha) as [Hat _];
      cbn [attempts flat_map]; unfold attempts in Hat; rewrite ?Hat.
    + simpl. f_equal. exact (IH _ _ _ _ _ _ Hcon Hr).
    + rewrite Hcon in Hns. discriminate.
    + simpl. f_equal. exact (IH _ _ _ _ _ _ Hcon Hr).
Qed.

(** Each attempted row ends with the outcome of its own attempt. *)
Lemma drain_outcome_each env n items q cnt c q' tr x :
  NoDup (map id items) ->
  drain_loop env n items q cnt = (c, q', tr) ->
  In x (attempts tr) -> exists m, outcome_of tr (id x) = Some (snd (attempt env m x)).
Proof.
  revert n q cnt c q' tr.
  induction items as [|item rest IH]; intros n q cnt c q' tr Hnd H Hx.
  - inversion H; subst. destruct Hx.
  - simpl in Hnd. inversion Hnd as [|? ? Hni Hnd']; subst.
    loop_step H; destruct (attempt_events _ _ _ _ _ Ha) as [Hat Hou];
      cbn [attempts flat_map] in Hx; unfold attempts in Hat; rewrite Hat in Hx;
      simpl in Hx; destruct Hx as [<-|Hx];
      try (exists n; cbn [outcome_of]; rewrite Hou; cbn [outcome_of];
           rewrite String.eqb_refl, Ha; reflexivity).
    + destruct (IH _ _ _ _ _ _ Hnd' Hr Hx) as [m Hm]. exists m.
      cbn [outcome_of]. rewrite Hou. cbn [outcome_of].
      destruct (String.eqb_spec (id item) (id x)) as [E|E]; [|exact Hm].
      exfalso. apply Hni. rewrite E.
      destruct (drain_attempts_prefix _ _ _ _ _ _ _ _ Hr) as [r' ->].
      apply in_map, in_or_app. left. exact Hx.
    + destruct Hx.
    + destruct (IH _ _ _ _ _ _ Hnd' Hr Hx) as [m Hm]. exists m.
      cbn [outcome_of]. rewrite Hou. cbn [outcome_of].
      destruct (String.eqb_spec (id item) (id x)) as [E|E]; [|exact Hm].
      exfalso. apply Hni. rewrite E.
      destruct (drain_attempts_prefix _ _ _ _ _ _ _ _ Hr) as [r' ->].
      apply in_map, in_or_app. left. exact Hx.
Qed.


Lemma attempt_fails env m x :
  (forall n u b, exists code text, fetch_result env n u b = Response false code text) ->
  exists msg, snd (attempt env m x) = Some msg.
Proof.
  intros Hf. unfold attempt.
  destruct (json_parse _) as [v|]; [|eexists; reflexivity].
  unfold sendToBackend. destruct (endpoint_sync_type_some (type x)) as [ep ->].
  destruct (Hf m (baseUrl ++ ep)%string (stringify v)) as (code & text & E).
  cbv beta zeta. rewrite E. eexists; reflexivity.
Qed.

Lemma synced_failed_row m r : is_synced (set_failed m (set_status syncing r)) = false.
Proof. reflexivity. Qed.

(** Extra X1: when no row of a reachable state is eligible, a pass changes
    nothing: it returns 0, leaves the state as it was (pruning removes
    nothing) and performs no step. *)
Theorem pass_nothing_eligible so env st :
  sql_order_ok so -> reachable so st ->
  (forall r, In r (queue st) -> eligible r = false) ->
  processSyncQueue so env st = (0, st, []).
Proof.
  intros Hso Hr He.
  destruct (reachable_inv _ _ Hso Hr) as (Hs & _).
  destruct (reachable_table _ _ Hso Hr) as (_ & Hc).
  unfold processSyncQueue. rewrite Hs, (candidates_nil _ _ Hso He). simpl.
  rewrite (prune_small _ _ Hso Hc). destruct st as [b q]; simpl in Hs; subst b. reflexivity.
Qed.

(** Extra X2: in every state the service reaches from the empty table
    (through enqueues and passes), the table holds at most 100 [synced]
    rows. *)
Theorem reachable_synced_at_most_100 so st :
  sql_order_ok so -> reachable so st -> length (filter is_synced (queue st)) <= 100.
Proof. intros Hso Hr. exact (proj2 (reachable_table _ _ Hso Hr)). Qed.

(** Extra X3: in every state the service reaches from the empty table, no
    row is left with status [syncing]: a pass marks every row it marks
    [syncing] as [synced] or [failed] before it ends. *)
Theorem reachable_no_syncing so st :
  sql_order_ok so -> reachable so st -> forall r, In r (queue st) -> status r <> syncing.
Proof. intros Hso Hr. exact (proj1 (reachable_table _ _ Hso Hr)). Qed.

(** Extra X4: a row whose status is [syncing] (as an interrupted pass would
    leave it) is never selected by a pass: it is not attempted and stays in
    the table unchanged. *)
Theorem syncing_row_stranded so env st cnt st' tr :
  sql_order_ok so -> NoDup (map id (queue st)) ->
  processSyncQueue so env st = (cnt, st', tr) ->
  forall r, In r (queue st) -> status r = syncing ->
    ~ In (id r) (map id (attempts tr)) /\ In r (queue st').
Proof.
  intros Hso Hnd H r Hr Hsy.
  destruct (isSyncing st) eqn:Hs.
  - unfold processSyncQueue in H. rewrite Hs in H. inversion H; subst.
    split; [simpl; tauto | exact Hr].
  - assert (Hne : eligible r = false) by (unfold eligible; rewrite Hsy; reflexivity).
    assert (Hno : outcome_of tr (id r) = None).
    { destruct (outcome_of tr (id r)) eqn:Ho; [|reflexivity]. exfalso.
      destruct (pass_outcome_attempted _ _ _ _ _ _ r Hso Hnd Hs H Hr) as [He _];
        [congruence|]. congruence. }
    split.
    + intros Hin. apply in_map_iff in Hin. destruct Hin as (x & Hx & Hin).
      destruct (pass_attempts_selected _ _ _ _ _ _ x Hso Hnd Hs H Hin) as [Hxq Hxe].
      rewrite (same_id_in _ _ _ Hnd Hxq Hr Hx) in Hxe. congruence.
    + destruct (pass_run _ _ _ _ _ _ Hso Hnd Hs H) as (_ & -> & _). simpl.
      apply prune_keeps_unsynced; [|unfold is_synced; rewrite Hsy; reflexivity].
      assert (Ha : apply_outcome tr r = r) by (unfold apply_outcome; rewrite Hno; reflexivity).
      rewrite <- Ha. apply in_map. exact Hr.
Qed.

(** Extra X5: a pass adds no row and changes no row's id, type, payload or
    creation time: every row after it comes from a row before it with the
    same four columns. *)
Theorem pass_keeps_row_contents so env st cnt st' tr :
  sql_order_ok so -> NoDup (map id (queue st)) ->
  processSyncQueue so env st = (cnt, st', tr) ->
  length (queue st') <= length (queue st) /\
  forall r', In r' (queue st') -> exists r, In r (queue st) /\
    id r' = id r /\ type r' = type r /\ payload r' = payload r /\ created_at r' = created_at r.
Proof.
  intros Hso Hnd H. destruct (isSyncing st) eqn:Hs.
  - unfold processSyncQueue in H. rewrite Hs in H. inversion H; subst.
    split; [lia|]. intros r' Hr'. exists r'. auto.
  - destruct (pass_run _ _ _ _ _ _ Hso Hnd Hs H) as (_ & -> & _). simpl. split.
    + unfold prune. rewrite <- (length_map (apply_outcome tr) (queue st)).
      apply filter_length_le.
    + intros r' Hr'. apply prune_subset in Hr'. apply in_map_iff in Hr'.
      destruct Hr' as (r & <- & Hr). exists r. split; [exact Hr|].
      destruct (apply_outcome_cases tr r) as [(_ & ->) | [(_ & ->) | (m & _ & ->)]];
        repeat split.
Qed.

(** Extra X6: the background task answers [NewData] exactly when the pass
    marked some row synced; the number the pass returns is the number of
    rows it marked synced, and the task leaves the state the pass leaves. *)
Theorem sync_task_reports so env st cnt st' tr :
  processSyncQueue so env st = (cnt, st', tr) ->
  cnt = length (filter (fun e => match e with MarkSynced _ => true | _ => false end) tr) /\
  sync_task so env st = (if (0 <? cnt)%nat then NewData else NoData, st') /\
  (fst (sync_task so env st) = NewData <-> exists i, In (MarkSynced i) tr).
Proof.
  intros H.
  set (f := fun e => match e with MarkSynced _ => true | _ => false end).
  assert (Hc : cnt = length (filter f tr)).
  { unfold processSyncQueue in H. destruct (isSyncing st).
    - inversion H; subst. reflexivity.
    - destruct (drain_loop _ _ _ _ _) as [[c q'] tr'] eqn:Hd. inversion H; subst.
      exact (drain_count_events _ _ _ _ _ _ _ _ Hd). }
  assert (Ht : sync_task so env st = (if (0 <? cnt)%nat then NewData else NoData, st'))
    by (unfold sync_task; rewrite H; reflexivity).
  split; [exact Hc|]. split; [exact Ht|]. rewrite Ht. simpl fst. rewrite Hc. split.
  - intros E. destruct (filter f tr) as [|e l] eqn:Ef; [simpl in E; discriminate|].
    assert (Hin : In e (filter f tr)) by (rewrite Ef; left; reflexivity).
    apply filter_In in Hin. destruct Hin as [Hin He].
    destruct e; try discriminate. eauto.
  - intros (i & Hi).
    assert (Hin : In (MarkSynced i) (filter f tr)) by (apply filter_In; auto).
    destruct (filter f tr); [destruct Hin | reflexivity].
Qed.

(** Extra X7: [getPendingCount] drops by exactly the number a pass
    returns: each row the pass marks synced leaves the pending count, each
    row it marks failed stays in it, and pruning removes only synced
    rows. *)
Theorem pass_pending_count so env st cnt st' tr :
  sql_order_ok so -> NoDup (map id (queue st)) ->
  processSyncQueue so env st = (cnt, st', tr) ->
  getPendingCount (queue st') + cnt = getPendingCount (queue st).
Proof.
  intros Hso Hnd H. destruct (isSyncing st) eqn:Hs.
  - unfold processSyncQueue in H. rewrite Hs in H. inversion H; subst. simpl. lia.
  - destruct (pass_run _ _ _ _ _ _ Hso Hnd Hs H) as (Hd & -> & Hndc & Hc & _). simpl.
    rewrite pending_count_prune.
    rewrite (drain_count_rows _ _ _ _ _ _ _ _ Hndc Hd). simpl.
    set (f := fun x => match outcome_of tr (id x) with Some None => true | _ => false end).
    assert (Hel : forall r, In r (queue st) -> outcome_of tr (id r) <> None -> eligible r = true)
      by (intros r Hr Ho;
          exact (proj1 (pass_outcome_attempted _ _ _ _ _ _ r Hso Hnd Hs H Hr Ho))).
    assert (Hlen : length (filter f (candidates so (queue st))) = length (filter f (queue st))).
    { destruct (Hso (filter eligible (queue st))) as (Hp & _). unfold candidates.
      rewrite (Permutation_length (perm_filter _ _ _ Hp)).
      rewrite filter_filter_in; [reflexivity|].
      intros x Hx Hf. apply Hel; [exact Hx|]. unfold f in Hf.
      destruct (outcome_of tr (id x)); [discriminate | discriminate]. }
    rewrite Hlen. apply pending_count_apply.
    intros r Hr Ho. specialize (Hel r Hr Ho). unfold eligible in Hel.
    apply andb_prop in Hel. tauto.
Qed.

(** Extra X8: when every request gets an HTTP error status and the device
    stays connected, a pass attempts every row it selected, returns 0, and
    leaves each eligible row [failed] with its retry count one higher and
    an error message recorded. *)
Theorem http_errors_fail_every_row so env st cnt st' tr :
  sql_order_ok so -> NoDup (map id (queue st)) -> isSyncing st = false ->
  (forall n u b, exists code text, fetch_result env n u b = Response false code text) ->
  (forall n, netinfo_connected (netinfo_after env n) = true) ->
  processSyncQueue so env st = (cnt, st', tr) ->
  cnt = 0 /\ attempts tr = candidates so (queue st) /\
  forall r, In r (queue st) -> eligible r = true ->
    exists r', In r' (queue st') /\ id r' = id r /\ status r' = failed /\
      retry_count r' = S (retry_count r) /\ last_error r' <> None.
Proof.
  intros Hso Hnd Hs Hf Hcon H.
  destruct (pass_run _ _ _ _ _ _ Hso Hnd Hs H) as (Hd & Hst & Hndc & Hc & _).
  pose proof (drain_connected _ _ _ _ _ _ _ _ Hcon Hd) as Hat.
  assert (Hfail : forall r, In r (candidates so (queue st)) ->
                   exists m, outcome_of tr (id r) = Some (Some m)).
  { intros r Hr. rewrite <- Hat in Hr.
    destruct (drain_outcome_each _ _ _ _ _ _ _ _ r Hndc Hd Hr) as [k Hk].
    destruct (attempt_fails env k r Hf) as [m Hm]. rewrite Hm in Hk. eauto. }
  split; [|split; [exact Hat|]].
  - rewrite (drain_count_rows _ _ _ _ _ _ _ _ Hndc Hd). rewrite filter_all_false; [reflexivity|].
    intros x Hx. destruct (Hfail x Hx) as [m ->]. reflexivity.
  - intros r Hr He.
    assert (Hrc : In r (candidates so (queue st))) by (apply Hc; auto).
    destruct (Hfail r Hrc) as [m Hm].
    exists (set_failed m (set_status syncing r)). subst st'. simpl.
    split; [|repeat split; discriminate].
    apply prune_keeps_unsynced; [|reflexivity].
    assert (Ha : apply_outcome tr r = set_failed m (set_status syncing r))
      by (unfold apply_outcome; rewrite Hm; reflexivity).
    rewrite <- Ha. apply in_map. exact Hr.
Qed.


(** Extra X10: pruning twice is pruning once: after one prune at most 100
    [synced] rows are left, and the second prune keeps them all. *)
Theorem prune_idempotent so q :
  sql_order_ok so -> NoDup (map id q) -> prune so (prune so q) = prune so q.
Proof.
  intros Hso Hnd. apply prune_small; [exact Hso|].
  rewrite (prune_count so Hso q Hnd). lia.
Qed.

(** Extra X11: [enqueue] raises [getPendingCount] by one when it resolves
    and leaves it unchanged when it rejects (store down or duplicate id). *)
Theorem enqueue_pending_count store_up q t p i now ns :
  getPendingCount (enq_queue (enqueue store_up q t p i now ns)) =
  getPendingCount q + match enq_result (enqueue store_up q t p i now ns) with
                      | Ok _ => 1 | Err _ => 0 end.
Proof.
  unfold enqueue, insert_row. destruct store_up; simpl; [|lia].
  destruct (existsb _ q); simpl; [lia|].
  unfold getPendingCount. rewrite filter_app, length_app. simpl. lia.
Qed.

(** ** Further properties of calls *)

(** Extra X12: the recorded duration [Math.round((endTime -
    callStartTime) / 1000)] is the whole number of seconds nearest to the
    elapsed milliseconds, halves rounded up: it is within half a second of
    the elapsed time. *)
Theorem round_seconds_nearest ms :
  (1000 * round_seconds ms - 500 <= ms < 1000 * round_seconds ms + 500)%Z.
Proof.
  unfold round_seconds.
  pose proof (Z.div_mod (ms + 500) 1000 ltac:(lia)).
  pose proof (Z.mod_pos_bound (ms + 500) 1000 ltac:(lia)).
  lia.
Qed.

(** Extra X13: without the voice SDK, for a fresh call id and an
    [alertId] that is null or names an alert, when the dialer opens
    [makeHotlineCall] resolves with the new call's id, inserts its row as
    [connecting] and enqueues nothing; when [Linking.openURL] rejects,
    [makeHotlineCall] rejects with its error and leaves the same state.  A
    later [endCall] ends the row [disconnected] with the end time and the
    rounded duration since the call started, enqueues one [call_log] item
    and clears the service's fields. *)
Theorem hangup_without_voice_sdk iso number alertId c t0 t1 i ns w :
  ~ In c (map CallLogs.id (call_logs (db w))) ->
  (forall a, alertId = Some a -> In a (alerts (db w))) ->
  ~ In i (map id (sync_queue (db w))) ->
  c <> ""%string ->
  let w1 := snd (makeHotlineCall iso number alertId c t0 (NoVoiceSdk None) w) in
  let w2 := endCall iso t1 i ns w1 in
  fst (makeHotlineCall iso number alertId c t0 (NoVoiceSdk None) w) = Ok c /\
  (forall m, makeHotlineCall iso number alertId c t0 (NoVoiceSdk (Some m)) w = (Err m, w1)) /\
  sync_queue (db w1) = sync_queue (db w) /\
  (exists r, In r (call_logs (db w1)) /\ CallLogs.id r = c) /\
  (forall r, In r (call_logs (db w1)) -> CallLogs.id r = c ->
     CallLogs.status r = CallLogs.connecting) /\
  (forall r, In r (call_logs (db w2)) -> CallLogs.id r = c ->
     CallLogs.status r = CallLogs.disconnected /\ CallLogs.ended_at r = Some (iso t1) /\
     CallLogs.duration_seconds r = Some (round_seconds (t1 - t0))) /\
  sync_queue (db w2) =
    sync_queue (db w) ++
    [new_item i call_log
       (JObj [("callId", JStr c); ("endedAt", JStr (iso t1));
              ("durationSeconds", json_of_Z (round_seconds (t1 - t0)))])
       (Z.to_nat (t1 / 1000))] /\
  calls w2 = mkCallServiceState None None None.
Proof.
  intros Hc Ha Hi Hne w1 w2. subst w1 w2. unfold makeHotlineCall.
  rewrite (call_logs_fresh_append _ _ Hc), (call_alert_fk _ _ Ha). cbn [snd fst].
  unfold endCall. cbn [calls activeCallId].
  replace (String.eqb c "") with false by (symmetry; apply String.eqb_neq; exact Hne).
  match goal with |- context [handleCallEnd iso c t1 i ns ?w1] =>
    destruct (handleCallEnd_queue iso c t1 i ns w1 Hi) as [Hq Hcl];
    pose proof (handleCallEnd_row iso c t1 i ns w1) as Hrow
  end.
  split; [reflexivity|]. split; [reflexivity|]. split; [reflexivity|]. split.
  - eexists. split; [apply in_or_app; right; left; reflexivity | reflexivity].
  - split.
    + intros r Hr Hcr. simpl in Hr. apply in_app_or in Hr.
      destruct Hr as [Hr|[<-|[]]]; [|reflexivity].
      exfalso. apply Hc. rewrite <- Hcr. apply in_map. exact Hr.
    + split; [exact Hrow|]. split; [rewrite Hq; reflexivity | exact Hcl].
Qed.

(** Extra X14: once [handleCallEnd] has ended a call and enqueued its
    item, [endCall] does nothing: the service's fields are cleared, so it
    neither rewrites the row nor enqueues another item. *)
Theorem endCall_after_call_end iso c t i ns w t' i' ns' :
  ~ In i (map id (sync_queue (db w))) ->
  endCall iso t' i' ns' (handleCallEnd iso c t i ns w) = handleCallEnd iso c t i ns w.
Proof.
  intros Hi. unfold endCall. rewrite (proj2 (handleCallEnd_queue iso c t i ns w Hi)).
  reflexivity.
Qed.

(** ** Further properties of locations and responses *)

Lemma capture_from iso cur last s :
  captureLocation iso cur last = Some s ->
  exists f, (cur = CurrentFix f \/ ((exists m, cur = CurrentError m) /\ last = LastKnownFix f)) /\
    s = snapshot_of iso f.
Proof.
  unfold captureLocation. destruct cur as [f|m]; [intros H; inversion H; eauto|].
  destruct last as [f| |m']; intros H; inversion H; subst. eauto 6.
Qed.

Lemma existsb_resp_false (l : list UserResponses.UserResponse) rid :
  existsb (fun r => String.eqb (UserResponses.id r) rid) l = false <->
  ~ In rid (map UserResponses.id l).
Proof.
  split.
  - intros H Hin. apply in_map_iff in Hin. destruct Hin as (r & Hr & Hin).
    assert (existsb (fun r => String.eqb (UserResponses.id r) rid) l = true) by
      (apply existsb_exists; exists r; split; [exact Hin | apply String.eqb_eq; exact Hr]).
    congruence.
  - intros H. destruct (existsb _ l) eqn:E; [|reflexivity]. exfalso. apply H.
    apply existsb_exists in E. destruct E as (r & Hr & Er). apply String.eqb_eq in Er.
    subst. apply in_map. exact Hr.
Qed.


(** What a [submitResponse] that resolves did. *)
Lemma submit_ok_shape iso store_up alertId userId rt cur last rid now qid ns d resp d' :
  submitResponse iso store_up alertId userId rt cur last rid now qid ns d = (Ok resp, d') ->
  ~ In rid (map UserResponses.id (user_responses d)) /\ ~ In qid (map id (sync_queue d)) /\
  In alertId (alerts d) /\
  resp = UserResponses.mkUserResponse rid alertId userId rt
           (option_map snap_latitude (captureLocation iso cur last))
           (option_map snap_longitude (captureLocation iso cur last))
           (option_map snap_accuracy (captureLocation iso cur last)) (iso now) None /\
  d' = mkDatabase (call_logs d) (user_responses d ++ [resp])
         (sync_queue d ++ [new_item qid user_response (response_payload resp)
                             (Z.to_nat (now / 1000))])
         (alerts d).
Proof.
  unfold submitResponse. destruct store_up; cbn [negb]; [|intros H; discriminate H].
  destruct (existsb _ (user_responses d)) eqn:Er; [intros H; discriminate H|].
  destruct (alert_exists d alertId) eqn:Ea; cbn [negb]; [|intros H; discriminate H].
  unfold enqueue, insert_row. cbn [negb sync_queue new_item id].
  destruct (existsb _ (sync_queue d)) eqn:Eq; cbn; intros H; [discriminate H|].
  inversion H; subst. split; [apply existsb_resp_false; exact Er|].
  split; [apply existsb_id_false; exact Eq|].
  split; [|split; reflexivity].
  apply existsb_exists in Ea. destruct Ea as (x & Hx & Ex).
  apply String.eqb_eq in Ex. subst. exact Hx.
Qed.

(** Extra X15: [captureLocation] uses the current fix whenever there is
    one, falls back to the last known fix only when the current lookup
    fails, and returns [null] exactly when the current lookup fails and
    there is no last known fix; a snapshot carries its fix's coordinates,
    and its accuracy is the fix's, or [-1] when the fix has none. *)
Theorem capture_location_fallback iso cur last :
  (forall f, cur = CurrentFix f -> captureLocation iso cur last = Some (snapshot_of iso f)) /\
  (forall m f, cur = CurrentError m -> last = LastKnownFix f ->
     captureLocation iso cur last = Some (snapshot_of iso f)) /\
  (captureLocation iso cur last = None <->
     (exists m, cur = CurrentError m) /\ forall f, last <> LastKnownFix f) /\
  (forall s, captureLocation iso cur last = Some s ->
     exists f, (cur = CurrentFix f \/ last = LastKnownFix f) /\
       snap_latitude s = fix_latitude f /\ snap_longitude s = fix_longitude f /\
       (fix_accuracy f = Some (snap_accuracy s) \/
        (fix_accuracy f = None /\ snap_accuracy s = lit "-1"))).
Proof.
  split; [intros f ->; reflexivity|].
  split; [intros m f -> ->; reflexivity|].
  split.
  - unfold captureLocation. destruct cur as [f|m].
    + split; [discriminate|]. intros [[m E] _]. discriminate E.
    + destruct last as [f| |m']; split; intros Hx.
      * discriminate Hx.
      * destruct Hx as [_ Hx]. exfalso. exact (Hx f eq_refl).
      * split; [eauto | intros f; discriminate].
      * reflexivity.
      * split; [eauto | intros f; discriminate].
      * reflexivity.
  - intros s H. destruct (capture_from _ _ _ _ H) as (f & Hf & ->). exists f.
    split; [destruct Hf as [Hf|[_ Hf]]; auto|].
    split; [reflexivity|]. split; [reflexivity|]. simpl.
    destruct (fix_accuracy f); auto.
Qed.

(** Extra X16: when [submitResponse] resolves with a response, that
    response is the row appended to [user_responses] (with the given ids,
    type and time, and no [syncedAt]); the response id and the queue id
    were fresh, one [user_response] item is appended to the sync queue, the
    call logs are untouched, and latitude, longitude and accuracy are
    either all null or all set. *)
Theorem submit_response_ok iso store_up alertId userId rt cur last rid now qid ns d resp d' :
  submitResponse iso store_up alertId userId rt cur last rid now qid ns d = (Ok resp, d') ->
  store_up = true /\
  ~ In rid (map UserResponses.id (user_responses d)) /\ ~ In qid (map id (sync_queue d)) /\
  user_responses d' = user_responses d ++ [resp] /\
  sync_queue d' = sync_queue d ++ [new_item qid user_response (response_payload resp)
                                     (Z.to_nat (now / 1000))] /\
  call_logs d' = call_logs d /\
  UserResponses.id resp = rid /\ UserResponses.alertId resp = alertId /\
  UserResponses.userId resp = userId /\ UserResponses.response resp = rt /\
  UserResponses.respondedAt resp = iso now /\ UserResponses.syncedAt resp = None /\
  (UserResponses.latitude resp = None <-> UserResponses.longitude resp = None) /\
  (UserResponses.latitude resp = None <-> UserResponses.locationAccuracy resp = None).
Proof.
  intros H.
  assert (Hup : store_up = true)
    by (destruct store_up; [reflexivity | unfold submitResponse in H; discriminate H]).
  destruct (submit_ok_shape _ _ _ _ _ _ _ _ _ _ _ _ _ _ H) as (Hr & Hq & _ & Hresp & ->).
  split; [exact Hup|]. split; [exact Hr|]. split; [exact Hq|].
  split; [reflexivity|]. split; [reflexivity|]. split; [reflexivity|].
  subst resp. cbn.
  destruct (captureLocation iso cur last); cbn; repeat split; congruence.
Qed.


(** Extra X18: the sync item queued for a response that resolved carries
    the response as JSON text that [JSON.parse] reads back to
    [{ ...response }], provided the location fix's numbers are finite
    (their text is in JSON number syntax). *)
Theorem submit_response_payload_parses iso store_up alertId userId rt cur last rid now qid ns d
    resp d' :
  submitResponse iso store_up alertId userId rt cur last rid now qid ns d = (Ok resp, d') ->
  (forall f, (cur = CurrentFix f \/ last = LastKnownFix f) ->
     valid_number (fix_latitude f) = true /\ valid_number (fix_longitude f) = true /\
     (forall a, fix_accuracy f = Some a -> valid_number a = true)) ->
  exists x, sync_queue d' = sync_queue d ++ [x] /\ type x = user_response /\
    status x = pending /\
    json_parse (list_ascii_of_string (payload x)) = Some (response_payload resp).
Proof.
  intros H Hv.
  destruct (submit_ok_shape _ _ _ _ _ _ _ _ _ _ _ _ _ _ H) as (_ & _ & _ & Hresp & ->).
  eexists. split; [reflexivity|]. split; [reflexivity|]. split; [reflexivity|].
  cbn [payload new_item]. apply json_parse_payload.
  split; [apply nodupb_sound; reflexivity|]. subst resp. cbn.
  destruct (captureLocation iso cur last) as [s|] eqn:Hl; [|repeat split].
  destruct (capture_from _ _ _ _ Hl) as (f & Hf & ->).
  destruct (Hv f) as (Hla & Hlo & Hac); [destruct Hf as [Hf|[_ Hf]]; auto|].
  cbn. repeat split; try assumption.
  destruct (fix_accuracy f) as [a|] eqn:Ea; [exact (Hac a eq_refl) | reflexivity].
Qed.

(** ** Reading responses back *)

Lemma string_compare_trans_le a b c :
  String.compare a b <> Gt -> String.compare b c <> Gt -> String.compare a c <> Gt.
Proof.
  revert b c. induction a as [|x a IH]; intros b c H1 H2.
  - destruct c; simpl; discriminate.
  - destruct b as [|y b]; [simpl in H1; congruence|].
    destruct c as [|z c]; [simpl in H2; congruence|].
    simpl in *. unfold Ascii.compare in *.
    destruct (N.compare_spec (N_of_ascii x) (N_of_ascii y)) as [E1|E1|E1];
    destruct (N.compare_spec (N_of_ascii y) (N_of_ascii z)) as [E2|E2|E2];
    destruct (N.compare_spec (N_of_ascii x) (N_of_ascii z)) as [E3|E3|E3];
    try congruence; try lia; eauto.
Qed.

Lemma string_leb_trans a b c :
  String.leb a b = true -> String.leb b c = true -> String.leb a c = true.
Proof.
  unfold String.leb. intros H1 H2.
  destruct (String.compare a c) eqn:E; [reflexivity|reflexivity|].
  exfalso. apply (string_compare_trans_le a b c); [| |exact E].
  - intros E'. rewrite E' in H1. discriminate.
  - intros E'. rewrite E' in H2. discriminate.
Qed.

Lemma string_ltb_leb_false a b : String.ltb a b = true -> String.leb b a = true -> False.
Proof.
  unfold String.ltb, String.leb. rewrite (String.compare_antisym b a).
  destruct (String.compare a b); simpl; discriminate.
Qed.

Lemma filter_snoc {A} (f : A -> bool) (l : list A) x :
  f x = true -> filter f (l ++ [x]) = filter f l ++ [x].
Proof. intros H. rewrite filter_app. simpl. rewrite H. reflexivity. Qed.

(** Extra X19: after [submitResponse] resolves with a response that is
    later (as [responded_at] text) than the user's earlier responses to
    the alert, [getResponseForAlert] returns that response, and
    [getUserResponses] lists it, one row longer than before. *)
Theorem latest_response_returned ro iso store_up alertId userId rt cur last rid now qid ns d
    resp d' :
  response_order_ok ro ->
  submitResponse iso store_up alertId userId rt cur last rid now qid ns d = (Ok resp, d') ->
  (forall r, In r (user_responses d) -> UserResponses.alertId r = alertId ->
     UserResponses.userId r = userId ->
     String.ltb (UserResponses.respondedAt r) (iso now) = true) ->
  getResponseForAlert ro alertId userId d' = Some resp /\
  In resp (getUserResponses ro userId d') /\
  length (getUserResponses ro userId d') = S (length (getUserResponses ro userId d)).
Proof.
  intros Hro H Hlt.
  destruct (submit_ok_shape _ _ _ _ _ _ _ _ _ _ _ _ _ _ H) as (_ & _ & _ & Hresp & ->).
  assert (Ha : UserResponses.alertId resp = alertId) by (subst resp; reflexivity).
  assert (Hu : UserResponses.userId resp = userId) by (subst resp; reflexivity).
  assert (Ht : UserResponses.respondedAt resp = iso now) by (subst resp; reflexivity).
  unfold getResponseForAlert, getUserResponses. cbn [user_responses].
  rewrite !filter_snoc
    by (rewrite ?Ha, ?Hu, String.eqb_refl; try rewrite String.eqb_refl; reflexivity).
  split; [|split].
  - set (P := fun r => String.eqb (UserResponses.alertId r) alertId &&
                       String.eqb (UserResponses.userId r) userId).
    destruct (Hro (filter P (user_responses d) ++ [resp])) as [Hp Hs].
    assert (Hin : In resp (order_responded_desc ro (filter P (user_responses d) ++ [resp])))
      by (eapply Permutation_in; [symmetry; exact Hp | apply in_or_app; right; left; reflexivity]).
    destruct (order_responded_desc ro _) as [|x l] eqn:Eo; [destruct Hin|].
    destruct Hin as [<-|Hin]; [reflexivity|].
    assert (Hx : In x (filter P (user_responses d) ++ [resp]))
      by (eapply Permutation_in; [exact Hp | left; reflexivity]).
    apply in_app_or in Hx. destruct Hx as [Hx|[<-|[]]]; [|reflexivity].
    apply filter_In in Hx. destruct Hx as [Hx HP]. unfold P in HP.
    apply andb_prop in HP. destruct HP as [HPa HPu].
    apply String.eqb_eq in HPa, HPu.
    apply StronglySorted_inv in Hs. destruct Hs as [_ Hf].
    rewrite Forall_forall in Hf. specialize (Hf resp Hin). unfold responded_ge in Hf.
    rewrite Ht in Hf. exfalso. exact (string_ltb_leb_false _ _ (Hlt x Hx HPa HPu) Hf).
  - destruct (Hro (filter (fun r => String.eqb (UserResponses.userId r) userId)
                     (user_responses d) ++ [resp])) as [Hp _].
    eapply Permutation_in; [symmetry; exact Hp | apply in_or_app; right; left; reflexivity].
  - destruct (Hro (filter (fun r => String.eqb (UserResponses.userId r) userId)
                     (user_responses d) ++ [resp])) as [Hp _].
    destruct (Hro (filter (fun r => String.eqb (UserResponses.userId r) userId)
                     (user_responses d))) as [Hp' _].
    rewrite (Permutation_length Hp), (Permutation_length Hp'), length_app.
    simpl. lia.
Qed.

(** ** Instances *)

Lemma pending_rows_props n :
  Forall (fun r => status r = pending /\ retry_count r < MAX_RETRIES /\
            exists v, json_wf v /\ payload r = string_of_list_ascii (stringify v))
    (pending_rows n).
Proof.
  apply Forall_forall. intros r Hr. unfold pending_rows in Hr.
  apply in_map_iff in Hr. destruct Hr as (k & <- & _).
  split; [reflexivity|]. split; [unfold MAX_RETRIES; simpl; lia|].
  exists (JObj []). split; [split; constructor | reflexivity].
Qed.

Lemma env_all_ok_ok :
  forall n u b, exists code text, fetch_result env_all_ok n u b = Response true code text.
Proof. intros n u b. exists 200, "OK". reflexivity. Qed.

Lemma reachable_exhausted : reachable isort_sql st_exhausted.
Proof.
  unfold st_exhausted, pass_down. repeat apply reach_pass.
  unfold st_enqueued. apply reach_enqueue. apply reach_init.
Qed.

Lemma retry_bound_and_exhaustion_witness :
  sql_order_ok isort_sql /\ reachable isort_sql st_exhausted /\
  map (fun r => (status r, retry_count r)) (queue st_exhausted) = [(failed, MAX_RETRIES)] /\
  (Forall (fun r => retry_count r <= MAX_RETRIES) (queue st_exhausted) /\
   forall env cnt st' tr, processSyncQueue isort_sql env st_exhausted = (cnt, st', tr) ->
    (forall x, In x (attempts tr) ->
       In x (queue st_exhausted) /\ (status x = pending \/ status x = failed) /\
       retry_count x < MAX_RETRIES) /\
    (forall r, In r (queue st_exhausted) -> status r = failed -> retry_count r = MAX_RETRIES ->
       ~ In (id r) (map id (attempts tr)) /\ In r (queue st')) /\
    (forall r msg, In r (queue st_exhausted) -> In (MarkFailed (id r) msg) tr ->
       exists r', In r' (queue st') /\ id r' = id r /\ status r' = failed /\
         retry_count r' = S (retry_count r) /\ last_error r' = Some msg)).
Proof.
  split; [exact isort_sql_ok|]. split; [exact reachable_exhausted|].
  split; [vm_compute; reflexivity|].
  exact (retry_bound_and_exhaustion isort_sql st_exhausted isort_sql_ok reachable_exhausted).
Defined.

Lemma processSyncQueue_locked_witness :
  isSyncing (mkSyncState true (pending_rows 2)) = true /\
  processSyncQueue isort_sql env_all_ok (mkSyncState true (pending_rows 2))
    = (0, mkSyncState true (pending_rows 2), []).
Proof.
  split; [reflexivity|].
  apply processSyncQueue_locked. reflexivity.
Defined.

Lemma pass_order_offline_abort_witness :
  let r := processSyncQueue isort_sql env_down st_three in
  sql_order_ok isort_sql /\ NoDup (map id (queue st_three)) /\
  r = (fst (fst r), snd (fst r), snd r) /\
  map id (attempts (snd r)) = ["t1"] /\
  In (NetCheck "t1" net_offline) (snd r) /\
  Sorted created_le (attempts (snd r)) /\
  ~ In "t2" (map id (attempts (snd r))) /\ ~ In "t3" (map id (attempts (snd r))).
Proof.
  cbv zeta.
  assert (Hnd : NoDup (map id (queue st_three))) by (apply nodupb_sound; vm_compute; reflexivity).
  assert (He : processSyncQueue isort_sql env_down st_three =
               (fst (fst (processSyncQueue isort_sql env_down st_three)),
                snd (fst (processSyncQueue isort_sql env_down st_three)),
                snd (processSyncQueue isort_sql env_down st_three)))
    by (vm_compute; reflexivity).
  assert (Hin : In (NetCheck "t1" net_offline) (snd (processSyncQueue isort_sql env_down st_three)))
    by (vm_compute; auto 10).
  destruct (pass_order_offline_abort _ _ _ _ _ _ isort_sql_ok Hnd He) as [Hs Hoff].
  destruct (Hoff row_t1 row_t2 net_offline) as [H2 _];
    [simpl; auto | simpl; auto | vm_compute; lia | exact Hin | reflexivity |].
  destruct (Hoff row_t1 row_t3 net_offline) as [H3 _];
    [simpl; auto | simpl; auto | vm_compute; lia | exact Hin | reflexivity |].
  split; [exact isort_sql_ok|]. split; [exact Hnd|]. split; [exact He|].
  split; [vm_compute; reflexivity|]. split; [exact Hin|]. split; [exact Hs|].
  split; [exact H2 | exact H3].
Defined.

Lemma redundant_disconnect_counterexample :
  activeCallId (calls call_w1) = Some "c1" /\ activeCallSid (calls call_w1) = Some "CA1" /\
  map CallLogs.duration_seconds (call_logs (db call_hangup)) = [Some 60%Z] /\
  map CallLogs.duration_seconds (call_logs (db call_hangup_event)) = [None] /\
  map (fun r => (id r, type r)) (sync_queue (db call_hangup)) = [("q1", call_log)] /\
  map (fun r => (id r, type r)) (sync_queue (db call_hangup_event)) =
    [("q1", call_log); ("q2", call_log)] /\
  map CallLogs.status (call_logs (db call_w2)) = [CallLogs.disconnected] /\
  map CallLogs.duration_seconds (call_logs (db call_w2)) = [Some 60%Z] /\
  map CallLogs.duration_seconds (call_logs (db call_w3)) = [None] /\
  call_logs (db call_w3) <> call_logs (db call_w2) /\
  map (fun r => (id r, type r)) (sync_queue (db call_w2)) = [("q1", call_log)] /\
  map (fun r => (id r, type r)) (sync_queue (db call_w3)) = [("q1", call_log); ("q2", call_log)].
Proof.
  vm_compute. do 6 (split; [reflexivity|]).
  split; [reflexivity|]. split; [reflexivity|]. split; [reflexivity|].
  split; [discriminate|]. split; reflexivity.
Defined.

Lemma redundant_disconnect_rewrites_witness :
  ~ In "q1" (map id (sync_queue (db call_w1))) /\ ~ In "q2" (map id (sync_queue (db call_w1))) /\
  "q1" <> "q2" /\
  (let w1 := on_call_event iso_ms "c1" (EvDisconnected 61000 "q1" net_online) call_w1 in
   let w2 := on_call_event iso_ms "c1" (EvDisconnected 62000 "q2" net_online) w1 in
   (activeCallId (calls call_w1) = Some "c1" -> "c1" <> ""%string ->
      endCall iso_ms 61000 "q1" net_online call_w1 = w1) /\
   calls w1 = mkCallServiceState None None None /\
   (forall r, In r (call_logs (db w1)) -> CallLogs.id r = "c1" ->
      CallLogs.status r = CallLogs.disconnected /\ CallLogs.ended_at r = Some (iso_ms 61000)) /\
   (forall r, In r (call_logs (db w2)) -> CallLogs.id r = "c1" ->
      CallLogs.status r = CallLogs.disconnected /\ CallLogs.ended_at r = Some (iso_ms 62000) /\
      CallLogs.duration_seconds r = None) /\
   sync_queue (db w2) =
     sync_queue (db w1) ++
     [new_item "q2" call_log
        (JObj [("callId", JStr "c1"); ("endedAt", JStr (iso_ms 62000)); ("durationSeconds", JNull)])
        (Z.to_nat (62000 / 1000))]).
Proof.
  assert (H1 : ~ In "q1" (map id (sync_queue (db call_w1)))) by (vm_compute; tauto).
  assert (H2 : ~ In "q2" (map id (sync_queue (db call_w1)))) by (vm_compute; tauto).
  assert (H12 : "q1" <> "q2") by discriminate.
  split; [exact H1|]. split; [exact H2|]. split; [exact H12|].
  exact (redundant_disconnect_rewrites iso_ms "c1" 61000 62000 "q1" "q2" net_online net_online
           call_w1 H1 H2 H12).
Defined.

Lemma connect_failure_marks_failed_witness :
  ~ In "c1" (map CallLogs.id (call_logs (db call_w0_alert))) /\
  (forall a, Some "alert1" = Some a -> In a (alerts (db call_w0_alert))) /\
  (forall msg,
     let w' := snd (makeHotlineCall iso_ms "911" (Some "alert1") "c1" 1000 (ConnectThrows msg) call_w0_alert) in
     fst (makeHotlineCall iso_ms "911" (Some "alert1") "c1" 1000 (ConnectThrows msg) call_w0_alert) = Ok "c1" /\
     (exists r, In r (call_logs (db w')) /\ CallLogs.id r = "c1") /\
     (forall r, In r (call_logs (db w')) -> CallLogs.id r = "c1" ->
        CallLogs.status r = CallLogs.failed) /\
     sync_queue (db w') = sync_queue (db call_w0_alert)) /\
  (forall sid,
     let w' := on_call_event iso_ms "c1" EvConnectFailure
                 (snd (makeHotlineCall iso_ms "911" (Some "alert1") "c1" 1000 (ConnectReturns sid) call_w0_alert)) in
     fst (makeHotlineCall iso_ms "911" (Some "alert1") "c1" 1000 (ConnectReturns sid) call_w0_alert) = Ok "c1" /\
     (exists r, In r (call_logs (db w')) /\ CallLogs.id r = "c1") /\
     (forall r, In r (call_logs (db w')) -> CallLogs.id r = "c1" ->
        CallLogs.status r = CallLogs.failed) /\
     sync_queue (db w') = sync_queue (db call_w0_alert)).
Proof.
  assert (H : ~ In "c1" (map CallLogs.id (call_logs (db call_w0_alert)))) by (vm_compute; tauto).
  assert (Ha : forall a, Some "alert1" = Some a -> In a (alerts (db call_w0_alert)))
    by (intros a E; inversion E; simpl; auto).
  split; [exact H|]. split; [exact Ha|].
  exact (connect_failure_marks_failed iso_ms "911" (Some "alert1") "c1" 1000 call_w0_alert H Ha).
Defined.

Lemma submit_without_location_witness :
  (LastKnownNull = LastKnownNull \/ exists m, LastKnownNull = LastKnownError m) /\
  ((forall su cur' last',
     (exists resp, fst (submitResponse iso_ms su "alert1" "user1" safe
                          (CurrentError "Location request timed out") LastKnownNull
                          "r1" 5000 "q1" net_offline db_alert) = Ok resp) <->
     (exists resp, fst (submitResponse iso_ms su "alert1" "user1" safe cur' last'
                          "r1" 5000 "q1" net_offline db_alert) = Ok resp)) /\
   (In "alert1" (alerts db_alert) ->
    ~ In "r1" (map UserResponses.id (user_responses db_alert)) ->
    ~ In "q1" (map id (sync_queue db_alert)) ->
    exists resp,
      submitResponse iso_ms true "alert1" "user1" safe (CurrentError "Location request timed out")
        LastKnownNull "r1" 5000 "q1" net_offline db_alert =
        (Ok resp,
         mkDatabase (call_logs db_alert) (user_responses db_alert ++ [resp])
           (sync_queue db_alert ++
            [new_item "q1" user_response (response_payload resp) (Z.to_nat (5000 / 1000))])
           (alerts db_alert)) /\
      UserResponses.latitude resp = None /\ UserResponses.longitude resp = None /\
      UserResponses.locationAccuracy resp = None /\
      UserResponses.id resp = "r1" /\ UserResponses.alertId resp = "alert1" /\
      UserResponses.userId resp = "user1" /\ UserResponses.response resp = safe)) /\
  In "alert1" (alerts db_alert) /\
  ~ In "r1" (map UserResponses.id (user_responses db_alert)) /\
  ~ In "q1" (map id (sync_queue db_alert)).
Proof.
  assert (H1 : LastKnownNull = LastKnownNull \/ exists m, LastKnownNull = LastKnownError m)
    by (left; reflexivity).
  split; [exact H1|]. split.
  - exact (submit_without_location iso_ms "alert1" "user1" safe "Location request timed out"
             LastKnownNull "r1" 5000 "q1" net_offline db_alert H1).
  - split; [simpl; auto|]. split; simpl; tauto.
Defined.

Lemma prune_after_pass_witness :
  let st := mkSyncState false (pending_rows 102) in
  let r := processSyncQueue isort_sql env_all_ok st in
  sql_order_ok isort_sql /\ NoDup (map id (queue st)) /\ isSyncing st = false /\
  r = (fst (fst r), snd (fst r), snd r) /\
  length (queue (snd (fst r))) = 100 /\
  (let q' := map (apply_outcome (snd r)) (queue st) in
   queue (snd (fst r)) = prune isort_sql q' /\
   length (filter is_synced (queue (snd (fst r)))) <= 100 /\
   length (filter is_synced (queue (snd (fst r)))) = Nat.min 100 (length (filter is_synced q')) /\
   (forall x, In x (queue (snd (fst r))) -> In x q') /\
   (forall x, In x q' -> is_synced x = false -> In x (queue (snd (fst r)))) /\
   (forall x k, In x (queue (snd (fst r))) -> is_synced x = true ->
      In k q' -> is_synced k = true -> ~ In k (queue (snd (fst r))) ->
      created_at k <= created_at x)).
Proof.
  cbv zeta.
  assert (Hnd : NoDup (map id (queue (mkSyncState false (pending_rows 102)))))
    by (apply nodupb_sound; vm_compute; reflexivity).
  assert (Hs : isSyncing (mkSyncState false (pending_rows 102)) = false) by reflexivity.
  assert (He : processSyncQueue isort_sql env_all_ok (mkSyncState false (pending_rows 102)) =
     (fst (fst (processSyncQueue isort_sql env_all_ok (mkSyncState false (pending_rows 102)))),
      snd (fst (processSyncQueue isort_sql env_all_ok (mkSyncState false (pending_rows 102)))),
      snd (processSyncQueue isort_sql env_all_ok (mkSyncState false (pending_rows 102)))))
    by (vm_compute; reflexivity).
  split; [exact isort_sql_ok|]. split; [exact Hnd|]. split; [exact Hs|].
  split; [exact He|]. split; [vm_compute; reflexivity|].
  exact (prune_after_pass isort_sql env_all_ok (mkSyncState false (pending_rows 102)) _ _ _
           isort_sql_ok Hnd Hs He).
Defined.

Lemma drain_101_counterexample :
  let st := mkSyncState false (pending_rows 101) in
  let r := processSyncQueue isort_sql env_all_ok st in
  sql_order_ok isort_sql /\ NoDup (map id (queue st)) /\ isSyncing st = false /\
  Forall (fun x => status x = pending /\ retry_count x < MAX_RETRIES /\
            exists v, json_wf v /\ payload x = string_of_list_ascii (stringify v)) (queue st) /\
  (forall n u b, exists code text, fetch_result env_all_ok n u b = Response true code text) /\
  length (queue st) = 101 /\
  fst (fst r) = 101 /\ getPendingCount (queue (snd (fst r))) = 0 /\
  length (filter is_synced (queue (snd (fst r)))) = 100 /\
  length (filter is_synced (queue (snd (fst r)))) <> length (queue st).
Proof.
  cbv zeta.
  split; [exact isort_sql_ok|].
  split; [apply nodupb_sound; vm_compute; reflexivity|].
  split; [reflexivity|]. split; [apply pending_rows_props|]. split; [exact env_all_ok_ok|].
  vm_compute. split; [reflexivity|]. split; [reflexivity|]. split; [reflexivity|].
  split; [reflexivity | discriminate].
Defined.

Lemma drain_all_delivered_witness :
  let st := mkSyncState false (pending_rows 3) in
  let r := processSyncQueue isort_sql env_all_ok st in
  sql_order_ok isort_sql /\ NoDup (map id (queue st)) /\ isSyncing st = false /\
  Forall (fun x => status x = pending /\ retry_count x < MAX_RETRIES /\
            exists v, json_wf v /\ payload x = string_of_list_ascii (stringify v)) (queue st) /\
  (forall n u b, exists code text, fetch_result env_all_ok n u b = Response true code text) /\
  r = (fst (fst r), snd (fst r), snd r) /\
  (fst (fst r) = length (queue st) /\ getPendingCount (queue (snd (fst r))) = 0 /\
   length (filter is_synced (queue (snd (fst r)))) = Nat.min 100 (length (queue st))).
Proof.
  cbv zeta.
  assert (Hnd : NoDup (map id (queue (mkSyncState false (pending_rows 3)))))
    by (apply nodupb_sound; vm_compute; reflexivity).
  assert (Hs : isSyncing (mkSyncState false (pending_rows 3)) = false) by reflexivity.
  assert (He : processSyncQueue isort_sql env_all_ok (mkSyncState false (pending_rows 3)) =
     (fst (fst (processSyncQueue isort_sql env_all_ok (mkSyncState false (pending_rows 3)))),
      snd (fst (processSyncQueue isort_sql env_all_ok (mkSyncState false (pending_rows 3)))),
      snd (processSyncQueue isort_sql env_all_ok (mkSyncState false (pending_rows 3)))))
    by (vm_compute; reflexivity).
  split; [exact isort_sql_ok|]. split; [exact Hnd|]. split; [exact Hs|].
  split; [apply pending_rows_props|]. split; [exact env_all_ok_ok|]. split; [exact He|].
  exact (drain_all_delivered isort_sql env_all_ok (mkSyncState false (pending_rows 3)) _ _ _
           isort_sql_ok Hnd Hs (pending_rows_props 3) env_all_ok_ok He).
Defined.

Lemma payload_round_trip_witness :
  let r := processSyncQueue isort_sql env_all_ok st_call in
  let x := new_item "q1" call_log call_payload 61 in
  sql_order_ok isort_sql /\ NoDup (map id (queue st_call)) /\
  r = (fst (fst r), snd (fst r), snd r) /\
  In x (queue st_call) /\ payload x = string_of_list_ascii (stringify call_payload) /\
  json_wf call_payload /\
  In (Post "q1" "https://api.yourcompany.com/api/calls" (stringify call_payload)) (snd r) /\
  ((forall u b, In (Post (id x) u b) (snd r) ->
      b = stringify call_payload /\
      exists ep, endpoints (sync_type_name (type x)) = Some ep /\ u = (baseUrl ++ ep)%string) /\
   (In x (attempts (snd r)) -> exists u, In (Post (id x) u (stringify call_payload)) (snd r))).
Proof.
  cbv zeta.
  assert (Hnd : NoDup (map id (queue st_call))) by (apply nodupb_sound; vm_compute; reflexivity).
  assert (He : processSyncQueue isort_sql env_all_ok st_call =
     (fst (fst (processSyncQueue isort_sql env_all_ok st_call)),
      snd (fst (processSyncQueue isort_sql env_all_ok st_call)),
      snd (processSyncQueue isort_sql env_all_ok st_call)))
    by (vm_compute; reflexivity).
  assert (Hx : In (new_item "q1" call_log call_payload 61) (queue st_call)) by (left; reflexivity).
  assert (Hp : payload (new_item "q1" call_log call_payload 61)
               = string_of_list_ascii (stringify call_payload)) by reflexivity.
  assert (Hv : json_wf call_payload).
  { split; [apply nodupb_sound; vm_compute; reflexivity | vm_compute; repeat split]. }
  split; [exact isort_sql_ok|]. split; [exact Hnd|]. split; [exact He|].
  split; [exact Hx|]. split; [exact Hp|]. split; [exact Hv|].
  split; [vm_compute; auto|].
  exact (payload_round_trip isort_sql env_all_ok st_call _ _ _ _ call_payload
           isort_sql_ok Hnd He Hx Hp Hv).
Defined.

Lemma reachable_delivered : reachable isort_sql st_delivered.
Proof.
  unfold st_delivered. apply reach_pass.
  unfold st_enqueued. apply reach_enqueue. apply reach_init.
Qed.

Lemma env_http_500_fails :
  forall n u b, exists code text, fetch_result env_http_500 n u b = Response false code text.
Proof. intros n u b. exists 500, "Internal Server Error". reflexivity. Qed.

Lemma env_http_500_connected : forall n, netinfo_connected (netinfo_after env_http_500 n) = true.
Proof. reflexivity. Qed.


Lemma insert_responded_in r l y : In y (insert_responded r l) <-> r = y \/ In y l.
Proof.
  induction l as [|x l IH]; simpl; [tauto|].
  destruct (String.leb _ _); simpl; [tauto|]. rewrite IH. tauto.
Qed.

Lemma insert_responded_perm r l : Permutation (insert_responded r l) (r :: l).
Proof.
  induction l as [|x l IH]; simpl; [reflexivity|].
  destruct (String.leb _ _); [reflexivity|].
  eapply perm_trans; [apply perm_skip, IH | apply perm_swap].
Qed.

Lemma insert_responded_sorted r l :
  StronglySorted responded_ge l -> StronglySorted responded_ge (insert_responded r l).
Proof.
  induction l as [|x l IH]; simpl; intros Hs.
  - repeat constructor.
  - apply StronglySorted_inv in Hs. destruct Hs as [Hl Hx].
    destruct (String.leb (UserResponses.respondedAt x) (UserResponses.respondedAt r)) eqn:E.
    + constructor; [constructor; assumption|]. constructor; [exact E|].
      rewrite Forall_forall in Hx |- *. intros y Hy. unfold responded_ge in *.
      exact (string_leb_trans _ _ _ (Hx y Hy) E).
    + constructor; [apply IH; exact Hl|]. rewrite Forall_forall in Hx |- *.
      intros y Hy. apply insert_responded_in in Hy. destruct Hy as [<-|Hy]; [|apply Hx, Hy].
      unfold responded_ge.
      destruct (String.leb_total (UserResponses.respondedAt x) (UserResponses.respondedAt r))
        as [H|H]; [congruence | exact H].
Qed.

Lemma isort_responses_ok : response_order_ok isort_responses.
Proof.
  intros l. simpl. induction l as [|x l [IHp IHs]]; simpl; [split; constructor|].
  split.
  - eapply perm_trans; [apply insert_responded_perm|]. apply perm_skip, IHp.
  - apply insert_responded_sorted, IHs.
Qed.

Lemma submit_sample_alert :
  submit_sample db_alert = (Ok resp_new, snd (submit_sample db_alert)).
Proof. vm_compute. reflexivity. Qed.

Lemma submit_sample_resp :
  submit_sample db_resp = (Ok resp_new, snd (submit_sample db_resp)).
Proof. vm_compute. reflexivity. Qed.

Lemma pass_nothing_eligible_witness :
  sql_order_ok isort_sql /\ reachable isort_sql st_exhausted /\
  (forall r, In r (queue st_exhausted) -> eligible r = false) /\
  getPendingCount (queue st_exhausted) = 1 /\
  processSyncQueue isort_sql env_all_ok st_exhausted = (0, st_exhausted, []).
Proof.
  assert (He : forall r, In r (queue st_exhausted) -> eligible r = false).
  { intros r Hr. vm_compute in Hr. destruct Hr as [<-|[]]. vm_compute. reflexivity. }
  split; [exact isort_sql_ok|]. split; [exact reachable_exhausted|]. split; [exact He|].
  split; [vm_compute; reflexivity|].
  exact (pass_nothing_eligible isort_sql env_all_ok st_exhausted isort_sql_ok
           reachable_exhausted He).
Defined.

Lemma reachable_synced_at_most_100_witness :
  sql_order_ok isort_sql /\ reachable isort_sql st_delivered /\
  length (filter is_synced (queue st_delivered)) = 1 /\
  length (filter is_synced (queue st_delivered)) <= 100.
Proof.
  split; [exact isort_sql_ok|]. split; [exact reachable_delivered|].
  split; [vm_compute; reflexivity|].
  exact (reachable_synced_at_most_100 isort_sql st_delivered isort_sql_ok reachable_delivered).
Defined.

Lemma reachable_no_syncing_witness :
  sql_order_ok isort_sql /\ reachable isort_sql st_delivered /\
  map status (queue st_delivered) = [synced] /\
  forall r, In r (queue st_delivered) -> status r <> syncing.
Proof.
  split; [exact isort_sql_ok|]. split; [exact reachable_delivered|].
  split; [vm_compute; reflexivity|].
  exact (reachable_no_syncing isort_sql st_delivered isort_sql_ok reachable_delivered).
Defined.

Lemma syncing_row_stranded_witness :
  let res := processSyncQueue isort_sql env_all_ok st_stuck in
  sql_order_ok isort_sql /\ NoDup (map id (queue st_stuck)) /\
  res = (fst (fst res), snd (fst res), snd res) /\
  In row_stuck (queue st_stuck) /\ status row_stuck = syncing /\
  map id (attempts (snd res)) = ["t1"] /\
  (~ In (id row_stuck) (map id (attempts (snd res))) /\ In row_stuck (queue (snd (fst res)))).
Proof.
  cbv zeta.
  assert (Hnd : NoDup (map id (queue st_stuck))) by (apply nodupb_sound; vm_compute; reflexivity).
  assert (He : processSyncQueue isort_sql env_all_ok st_stuck =
     (fst (fst (processSyncQueue isort_sql env_all_ok st_stuck)),
      snd (fst (processSyncQueue isort_sql env_all_ok st_stuck)),
      snd (processSyncQueue isort_sql env_all_ok st_stuck))) by (vm_compute; reflexivity).
  assert (Hr : In row_stuck (queue st_stuck)) by (left; reflexivity).
  assert (Hs : status row_stuck = syncing) by reflexivity.
  split; [exact isort_sql_ok|]. split; [exact Hnd|]. split; [exact He|].
  split; [exact Hr|]. split; [exact Hs|]. split; [vm_compute; reflexivity|].
  exact (syncing_row_stranded isort_sql env_all_ok st_stuck _ _ _ isort_sql_ok Hnd He
           row_stuck Hr Hs).
Defined.

Lemma pass_keeps_row_contents_witness :
  let res := processSyncQueue isort_sql env_all_ok st_three in
  sql_order_ok isort_sql /\ NoDup (map id (queue st_three)) /\
  res = (fst (fst res), snd (fst res), snd res) /\
  map status (queue (snd (fst res))) = [synced; synced; synced] /\
  (length (queue (snd (fst res))) <= length (queue st_three) /\
   forall r', In r' (queue (snd (fst res))) -> exists r, In r (queue st_three) /\
     id r' = id r /\ type r' = type r /\ payload r' = payload r /\
     created_at r' = created_at r).
Proof.
  cbv zeta.
  assert (Hnd : NoDup (map id (queue st_three))) by (apply nodupb_sound; vm_compute; reflexivity).
  assert (He : processSyncQueue isort_sql env_all_ok st_three =
     (fst (fst (processSyncQueue isort_sql env_all_ok st_three)),
      snd (fst (processSyncQueue isort_sql env_all_ok st_three)),
      snd (processSyncQueue isort_sql env_all_ok st_three))) by (vm_compute; reflexivity).
  split; [exact isort_sql_ok|]. split; [exact Hnd|]. split; [exact He|].
  split; [vm_compute; reflexivity|].
  exact (pass_keeps_row_contents isort_sql env_all_ok st_three _ _ _ isort_sql_ok Hnd He).
Defined.

Lemma sync_task_reports_witness :
  let res := processSyncQueue isort_sql env_all_ok st_three in
  res = (fst (fst res), snd (fst res), snd res) /\
  fst (fst res) = 3 /\ fst (sync_task isort_sql env_all_ok st_three) = NewData /\
  (fst (fst res) = length (filter (fun e => match e with MarkSynced _ => true | _ => false end)
                              (snd res)) /\
   sync_task isort_sql env_all_ok st_three =
     (if (0 <? fst (fst res))%nat then NewData else NoData, snd (fst res)) /\
   (fst (sync_task isort_sql env_all_ok st_three) = NewData <->
      exists i, In (MarkSynced i) (snd res))).
Proof.
  cbv zeta.
  assert (He : processSyncQueue isort_sql env_all_ok st_three =
     (fst (fst (processSyncQueue isort_sql env_all_ok st_three)),
      snd (fst (processSyncQueue isort_sql env_all_ok st_three)),
      snd (processSyncQueue isort_sql env_all_ok st_three))) by (vm_compute; reflexivity).
  split; [exact He|]. split; [vm_compute; reflexivity|]. split; [vm_compute; reflexivity|].
  exact (sync_task_reports isort_sql env_all_ok st_three _ _ _ He).
Defined.

Lemma pass_pending_count_witness :
  let res := processSyncQueue isort_sql env_all_ok st_three in
  sql_order_ok isort_sql /\ NoDup (map id (queue st_three)) /\
  res = (fst (fst res), snd (fst res), snd res) /\
  getPendingCount (queue st_three) = 3 /\ fst (fst res) = 3 /\
  getPendingCount (queue (snd (fst res))) + fst (fst res) = getPendingCount (queue st_three).
Proof.
  cbv zeta.
  assert (Hnd : NoDup (map id (queue st_three))) by (apply nodupb_sound; vm_compute; reflexivity).
  assert (He : processSyncQueue isort_sql env_all_ok st_three =
     (fst (fst (processSyncQueue isort_sql env_all_ok st_three)),
      snd (fst (processSyncQueue isort_sql env_all_ok st_three)),
      snd (processSyncQueue isort_sql env_all_ok st_three))) by (vm_compute; reflexivity).
  split; [exact isort_sql_ok|]. split; [exact Hnd|]. split; [exact He|].
  split; [vm_compute; reflexivity|]. split; [vm_compute; reflexivity|].
  exact (pass_pending_count isort_sql env_all_ok st_three _ _ _ isort_sql_ok Hnd He).
Defined.

Lemma http_errors_fail_every_row_witness :
  let res := processSyncQueue isort_sql env_http_500 st_three in
  sql_order_ok isort_sql /\ NoDup (map id (queue st_three)) /\ isSyncing st_three = false /\
  res = (fst (fst res), snd (fst res), snd res) /\
  map (fun r => (id r, status r, retry_count r)) (queue (snd (fst res))) =
    [("t3", failed, 1); ("t1", failed, 1); ("t2", failed, 1)] /\
  (fst (fst res) = 0 /\ attempts (snd res) = candidates isort_sql (queue st_three) /\
   forall r, In r (queue st_three) -> eligible r = true ->
     exists r', In r' (queue (snd (fst res))) /\ id r' = id r /\ status r' = failed /\
       retry_count r' = S (retry_count r) /\ last_error r' <> None).
Proof.
  cbv zeta.
  assert (Hnd : NoDup (map id (queue st_three))) by (apply nodupb_sound; vm_compute; reflexivity).
  assert (He : processSyncQueue isort_sql env_http_500 st_three =
     (fst (fst (processSyncQueue isort_sql env_http_500 st_three)),
      snd (fst (processSyncQueue isort_sql env_http_500 st_three)),
      snd (processSyncQueue isort_sql env_http_500 st_three))) by (vm_compute; reflexivity).
  split; [exact isort_sql_ok|]. split; [exact Hnd|]. split; [reflexivity|].
  split; [exact He|]. split; [vm_compute; reflexivity|].
  exact (http_errors_fail_every_row isort_sql env_http_500 st_three _ _ _ isort_sql_ok Hnd
           eq_refl env_http_500_fails env_http_500_connected He).
Defined.


Lemma prune_idempotent_witness :
  sql_order_ok isort_sql /\ NoDup (map id synced_rows) /\
  length (prune isort_sql synced_rows) = 100 /\
  prune isort_sql (prune isort_sql synced_rows) = prune isort_sql synced_rows.
Proof.
  assert (Hnd : NoDup (map id synced_rows)) by (apply nodupb_sound; vm_compute; reflexivity).
  split; [exact isort_sql_ok|]. split; [exact Hnd|]. split; [vm_compute; reflexivity|].
  exact (prune_idempotent isort_sql synced_rows isort_sql_ok Hnd).
Defined.

Lemma hangup_without_voice_sdk_witness :
  ~ In "c1" (map CallLogs.id (call_logs (db call_w0_alert))) /\
  (forall a, Some "alert1" = Some a -> In a (alerts (db call_w0_alert))) /\
  ~ In "q1" (map id (sync_queue (db call_w0_alert))) /\ "c1" <> ""%string /\
  (let w1 := snd (makeHotlineCall iso_ms "911" (Some "alert1") "c1" 1000 (NoVoiceSdk None)
                    call_w0_alert) in
   let w2 := endCall iso_ms 62000 "q1" net_online w1 in
   fst (makeHotlineCall iso_ms "911" (Some "alert1") "c1" 1000 (NoVoiceSdk None) call_w0_alert)
     = Ok "c1" /\
   (forall m, makeHotlineCall iso_ms "911" (Some "alert1") "c1" 1000 (NoVoiceSdk (Some m))
                call_w0_alert = (Err m, w1)) /\
   sync_queue (db w1) = sync_queue (db call_w0_alert) /\
   (exists r, In r (call_logs (db w1)) /\ CallLogs.id r = "c1") /\
   (forall r, In r (call_logs (db w1)) -> CallLogs.id r = "c1" ->
      CallLogs.status r = CallLogs.connecting) /\
   (forall r, In r (call_logs (db w2)) -> CallLogs.id r = "c1" ->
      CallLogs.status r = CallLogs.disconnected /\ CallLogs.ended_at r = Some (iso_ms 62000) /\
      CallLogs.duration_seconds r = Some (round_seconds (62000 - 1000))) /\
   sync_queue (db w2) =
     sync_queue (db call_w0_alert) ++
     [new_item "q1" call_log
        (JObj [("callId", JStr "c1"); ("endedAt", JStr (iso_ms 62000));
               ("durationSeconds", json_of_Z (round_seconds (62000 - 1000)))])
        (Z.to_nat (62000 / 1000))] /\
   calls w2 = mkCallServiceState None None None).
Proof.
  assert (H1 : ~ In "c1" (map CallLogs.id (call_logs (db call_w0_alert)))) by (vm_compute; tauto).
  assert (Ha : forall a, Some "alert1" = Some a -> In a (alerts (db call_w0_alert)))
    by (intros a E; inversion E; simpl; auto).
  assert (H2 : ~ In "q1" (map id (sync_queue (db call_w0_alert)))) by (vm_compute; tauto).
  assert (H3 : "c1" <> ""%string) by discriminate.
  split; [exact H1|]. split; [exact Ha|]. split; [exact H2|]. split; [exact H3|].
  exact (hangup_without_voice_sdk iso_ms "911" (Some "alert1") "c1" 1000 62000 "q1" net_online
           call_w0_alert H1 Ha H2 H3).
Defined.

Lemma endCall_after_call_end_witness :
  ~ In "q1" (map id (sync_queue (db call_w1))) /\
  endCall iso_ms 70000 "q2" net_online (handleCallEnd iso_ms "c1" 61000 "q1" net_online call_w1)
    = handleCallEnd iso_ms "c1" 61000 "q1" net_online call_w1.
Proof.
  assert (H : ~ In "q1" (map id (sync_queue (db call_w1)))) by (vm_compute; tauto).
  split; [exact H|].
  exact (endCall_after_call_end iso_ms "c1" 61000 "q1" net_online call_w1 70000 "q2" net_online H).
Defined.

Lemma submit_response_ok_witness :
  submit_sample db_alert = (Ok resp_new, snd (submit_sample db_alert)) /\
  UserResponses.locationAccuracy resp_new = Some (lit "-1") /\
  (true = true /\
   ~ In "r1" (map UserResponses.id (user_responses db_alert)) /\
   ~ In "q1" (map id (sync_queue db_alert)) /\
   user_responses (snd (submit_sample db_alert)) = user_responses db_alert ++ [resp_new] /\
   sync_queue (snd (submit_sample db_alert)) =
     sync_queue db_alert ++ [new_item "q1" user_response (response_payload resp_new)
                               (Z.to_nat (5000 / 1000))] /\
   call_logs (snd (submit_sample db_alert)) = call_logs db_alert /\
   UserResponses.id resp_new = "r1" /\ UserResponses.alertId resp_new = "alert1" /\
   UserResponses.userId resp_new = "user1" /\ UserResponses.response resp_new = safe /\
   UserResponses.respondedAt resp_new = iso_ms 5000 /\ UserResponses.syncedAt resp_new = None /\
   (UserResponses.latitude resp_new = None <-> UserResponses.longitude resp_new = None) /\
   (UserResponses.latitude resp_new = None <-> UserResponses.locationAccuracy resp_new = None)).
Proof.
  split; [exact submit_sample_alert|]. split; [reflexivity|].
  exact (submit_response_ok iso_ms true "alert1" "user1" safe (CurrentFix fix_sample)
           LastKnownNull "r1" 5000 "q1" net_online db_alert resp_new
           (snd (submit_sample db_alert)) submit_sample_alert).
Defined.

Lemma submit_response_payload_parses_witness :
  submit_sample db_alert = (Ok resp_new, snd (submit_sample db_alert)) /\
  (forall f, (CurrentFix fix_sample = CurrentFix f \/ LastKnownNull = LastKnownFix f) ->
     valid_number (fix_latitude f) = true /\ valid_number (fix_longitude f) = true /\
     (forall a, fix_accuracy f = Some a -> valid_number a = true)) /\
  exists x, sync_queue (snd (submit_sample db_alert)) = sync_queue db_alert ++ [x] /\
    type x = user_response /\ status x = pending /\
    json_parse (list_ascii_of_string (payload x)) = Some (response_payload resp_new).
Proof.
  assert (Hv : forall f, (CurrentFix fix_sample = CurrentFix f \/ LastKnownNull = LastKnownFix f) ->
     valid_number (fix_latitude f) = true /\ valid_number (fix_longitude f) = true /\
     (forall a, fix_accuracy f = Some a -> valid_number a = true)).
  { intros f [E|E]; [|discriminate E]. injection E as E. subst f.
    split; [vm_compute; reflexivity|]. split; [vm_compute; reflexivity|].
    intros a Ha. discriminate Ha. }
  split; [exact submit_sample_alert|]. split; [exact Hv|].
  exact (submit_response_payload_parses iso_ms true "alert1" "user1" safe (CurrentFix fix_sample)
           LastKnownNull "r1" 5000 "q1" net_online db_alert resp_new
           (snd (submit_sample db_alert)) submit_sample_alert Hv).
Defined.

Lemma latest_response_returned_witness :
  response_order_ok isort_responses /\
  submit_sample db_resp = (Ok resp_new, snd (submit_sample db_resp)) /\
  (forall r, In r (user_responses db_resp) -> UserResponses.alertId r = "alert1" ->
     UserResponses.userId r = "user1" ->
     String.ltb (UserResponses.respondedAt r) (iso_ms 5000) = true) /\
  getResponseForAlert isort_responses "alert1" "user1" db_resp = Some resp_old /\
  (getResponseForAlert isort_responses "alert1" "user1" (snd (submit_sample db_resp))
     = Some resp_new /\
   In resp_new (getUserResponses isort_responses "user1" (snd (submit_sample db_resp))) /\
   length (getUserResponses isort_responses "user1" (snd (submit_sample db_resp))) =
     S (length (getUserResponses isort_responses "user1" db_resp))).
Proof.
  assert (Hlt : forall r, In r (user_responses db_resp) -> UserResponses.alertId r = "alert1" ->
     UserResponses.userId r = "user1" ->
     String.ltb (UserResponses.respondedAt r) (iso_ms 5000) = true).
  { intros r [<-|[]] _ _. vm_compute. reflexivity. }
  split; [exact isort_responses_ok|]. split; [exact submit_sample_resp|].
  split; [exact Hlt|]. split; [vm_compute; reflexivity|].
  exact (latest_response_returned isort_responses iso_ms true "alert1" "user1" safe
           (CurrentFix fix_sample) LastKnownNull "r1" 5000 "q1" net_online db_resp resp_new
           (snd (submit_sample db_resp)) isort_responses_ok submit_sample_resp Hlt).
Defined.
